(** * scgi_run: executing a CGI script over an SCGI connection

    A shallow embedding of [scgi_run.c] and the properties of its header
    reader, environment handling, path resolution, path validation and
    dispatch.

    Conventions of the embedding.
    - A byte is an [ascii]; a C string is the list of its bytes before the
      terminating NUL; a buffer is the list of all its bytes.
    - [char] is signed (as on x86 and x86-64), [int] has 32 bits and
      [size_t] has 64 bits; the wrap-around is written out.
    - Standard input is the list of bytes still to come.  The program is
      given twice: first as it runs when every [read] delivers the
      requested number of bytes unless the stream ends first, then
      ([read_scgi_environment_partial], [main_partial]) with the number
      of bytes the one block [read] delivers left to the system.
    - The process environment is [environ] as the C library keeps it: a
      list of strings of the form NAME=value.
    - What the operating system decides (whether [malloc] returns memory,
      whether [execve] replaces the image and with which [errno] it
      returns otherwise, the text of [strerror]) is a parameter. *)

From Stdlib Require Import List ZArith Lia Bool Ascii String Arith.
From Stdlib Require Import DecimalString HexadecimalString.
Import ListNotations.

Local Open Scope Z_scope.

(** ** Bytes and C strings *)

Definition bytes := list ascii.

Definition lit (s : string) : bytes := list_ascii_of_string s.

Definition NUL : ascii := "000"%char.
Definition CR : ascii := "013"%char.
Definition LF : ascii := "010"%char.
Definition DQUOTE : ascii := "034"%char.
Definition COMMA : ascii := ","%char.
Definition COLON : ascii := ":"%char.
Definition SLASH : ascii := "/"%char.
Definition EQUALS : ascii := "="%char.

(** The value of a byte as an [unsigned char]. *)
Definition code (c : ascii) : Z := Z.of_N (N_of_ascii c).

(** The value of a [char] promoted to [int]: [char] is signed. *)
Definition char_to_int (c : ascii) : Z :=
  if code c <? 128 then code c else code c - 256.

(** [int] arithmetic wraps around at 32 bits. *)
Definition wrap32 (z : Z) : Z := (z + 2 ^ 31) mod 2 ^ 32 - 2 ^ 31.

(** [size_t] arithmetic wraps around at 64 bits. *)
Definition wrap_size_t (z : Z) : Z := z mod 2 ^ 64.

(** The displacement a [size_t] index causes when it is added to a
    pointer: addresses wrap around too, so an index of 2^64-1 moves the
    pointer one byte back. *)
Definition displacement (i : Z) : Z := if i <? 2 ^ 63 then i else i - 2 ^ 64.

(** [isdigit] in the C locale. *)
Definition isdigit (c : ascii) : bool := (48 <=? code c) && (code c <=? 57).

(** [printf]'s [%d] of a non-negative [int] and [%x] of an [int]
    (converted to [unsigned int], lower-case digits). *)
Definition fmt_d (z : Z) : bytes :=
  lit (DecimalString.NilZero.string_of_uint (N.to_uint (Z.to_N z))).

Definition fmt_x (z : Z) : bytes :=
  lit (HexadecimalString.NilZero.string_of_uint
         (N.to_hex_uint (Z.to_N (z mod 2 ^ 32)))).

(** [strlen] of a C string held as the list of its bytes. *)
Definition strlen (s : bytes) : nat := List.length s.

(** The scan [strlen] performs inside a buffer: [Some n] when the first
    NUL at or after the start is [n] bytes further, [None] when the scan
    reaches the end of the buffer without meeting one. *)
Fixpoint scan_nul (l : bytes) : option nat :=
  match l with
  | [] => None
  | c :: r => if Ascii.eqb c NUL then Some 0%nat
              else option_map S (scan_nul r)
  end.

(** [strlen(buf + off)]. *)
Definition strlen_at (buf : bytes) (off : nat) : option nat :=
  scan_nul (skipn off buf).

(** The C string of [n] bytes that starts at [buf + off]. *)
Definition string_at (buf : bytes) (off n : nat) : bytes :=
  firstn n (skipn off buf).

(** The buffer offsets a [strlen(buf + off)] examines: up to and including
    the NUL when there is one, otherwise every byte up to the end of the
    buffer and then the first byte after it. *)
Definition scanned (buf : bytes) (off : nat) : list nat :=
  match strlen_at buf off with
  | Some n => seq off (S n)
  | None => seq off (S (List.length buf - off))
  end.

(** Whether [p] is the beginning of [s]. *)
Fixpoint starts_with (p s : bytes) : bool :=
  match p, s with
  | [], _ => true
  | _ :: _, [] => false
  | a :: p', b :: s' => Ascii.eqb a b && starts_with p' s'
  end.

(** [strstr(haystack, needle)]: the offset of the first occurrence. *)
Fixpoint strstr (haystack needle : bytes) : option nat :=
  if starts_with needle haystack then Some 0%nat
  else match haystack with
       | [] => None
       | _ :: h' => option_map S (strstr h' needle)
       end.

(** [strncmp(a, b, n)]: the difference of the first bytes that differ
    among the first [n], the terminating NUL counting as a byte. *)
Fixpoint strncmp (a b : bytes) (n : nat) : Z :=
  match n with
  | O => 0
  | S n' =>
      match a, b with
      | [], [] => 0
      | [], y :: _ => 0 - code y
      | x :: _, [] => code x
      | x :: a', y :: b' =>
          if Ascii.eqb x y then strncmp a' b' n' else code x - code y
      end
  end.

(** [strchr(s, c) != NULL] for a byte [c] other than NUL. *)
Definition contains (c : ascii) (s : bytes) : bool :=
  existsb (Ascii.eqb c) s.

(** ** The environment, as the C library keeps it *)

Definition env := list bytes.

(** An entry belongs to [name] when it reads [name=...]. *)
Definition entry_matches (name e : bytes) : bool :=
  starts_with (name ++ [EQUALS]) e.

(** The names [setenv] and [unsetenv] accept; for the others they return
    -1 with EINVAL and leave the environment as it is. *)
Definition valid_name (name : bytes) : bool :=
  match name with
  | [] => false
  | _ => negb (contains EQUALS name)
  end.

(** [getenv(name)]: the value of the first entry of [name]. *)
Definition getenv (name : bytes) (e : env) : option bytes :=
  match name with
  | [] => None
  | _ => option_map (skipn (S (List.length name)))
           (find (entry_matches name) e)
  end.

(** Replace the first entry of [name], or add one at the end. *)
Fixpoint add_to_environ (name value : bytes) (overwrite : bool) (e : env)
  : env :=
  match e with
  | [] => [name ++ EQUALS :: value]
  | x :: r =>
      if entry_matches name x
      then (if overwrite then (name ++ EQUALS :: value) :: r else x :: r)
      else x :: add_to_environ name value overwrite r
  end.

(** [setenv(name, value, overwrite)]; the program ignores what it returns. *)
Definition setenv (name value : bytes) (overwrite : bool) (e : env) : env :=
  if valid_name name then add_to_environ name value overwrite e else e.

(** [unsetenv(name)] removes every entry of [name]. *)
Definition unsetenv (name : bytes) (e : env) : env :=
  if valid_name name then filter (fun x => negb (entry_matches name x)) e
  else e.

(** ** The process: its streams and environment, and how a run ends *)

Record world := mkWorld {
  stdin : bytes;    (* the bytes still to be read from descriptor 0 *)
  stdout : bytes;   (* the bytes written to the output stream so far *)
  environ : env
}.

Definition set_stdin (s : bytes) (w : world) : world :=
  mkWorld s (stdout w) (environ w).
Definition set_stdout (s : bytes) (w : world) : world :=
  mkWorld (stdin w) s (environ w).
Definition set_environ (e : env) (w : world) : world :=
  mkWorld (stdin w) (stdout w) e.

Inductive outcome (A : Type) : Type :=
| Returns (a : A) (w : world)         (* the call returns [a] *)
| Exits (status : Z) (w : world)      (* [exit(status)] was called *)
| Replaced (path : bytes) (argv : list bytes) (envp : env) (w : world)
                                      (* [execve] replaced the image *)
| Faults (w : world)                  (* a byte outside its object was read *)
| OutOfFuel.                          (* the model's loop bound was too low *)

Arguments Returns {A} a w.
Arguments Exits {A} status w.
Arguments Replaced {A} path argv envp w.
Arguments Faults {A} w.
Arguments OutOfFuel {A}.

Definition M (A : Type) : Type := world -> outcome A.

Definition ret {A} (a : A) : M A := fun w => Returns a w.

Definition bind {A B} (m : M A) (f : A -> M B) : M B :=
  fun w =>
    match m w with
    | Returns a w' => f a w'
    | Exits s w' => Exits s w'
    | Replaced p a e w' => Replaced p a e w'
    | Faults w' => Faults w'
    | OutOfFuel => OutOfFuel
    end.

Notation "x <- m ;; k" := (bind m (fun x => k))
  (at level 61, m at next level, right associativity).
Notation "m ;;; k" := (bind m (fun _ => k))
  (at level 61, right associativity).

(** ** The program's constants and messages *)

Definition MAX_HEADER_LENGTH : Z := 262144.
Definition ENOENT : Z := 2.

Definition CRLF : bytes := [CR; LF].

Definition s500 : bytes := lit "500 Internal Error".
Definition s500_invalid : bytes := lit "500 Invalid SCGI header".
Definition s404 : bytes := lit "404 Not Found".

Definition msg_stream_truncated : bytes := lit "SCGI stream truncated".
Definition msg_bad_start (ch : ascii) : bytes :=
  lit "SCGI stream didn't start with a digit, started with char 0x"
  ++ fmt_x (char_to_int ch).
Definition msg_length_range : bytes :=
  lit "SCGI Header length is not in the range 0.." ++ fmt_d MAX_HEADER_LENGTH.
Definition msg_bad_length_char (ch : ascii) : bytes :=
  lit "Invalid character 0x" ++ fmt_x (char_to_int ch) ++ lit " in length".
Definition msg_no_memory : bytes :=
  lit "Can't allocate memory to read SCGI header".
Definition msg_header_truncated : bytes := lit "SCGI Header truncated".
Definition msg_missing_comma : bytes :=
  lit "SCGI Header: Incomplete netstring, missing comma".
Definition msg_corrupt_table : bytes :=
  lit "SCGI Header: Corrupt name/value table".
Definition msg_missing_script : bytes :=
  lit "CGI environment missing SCRIPT_FILENAME".
Definition msg_dotdot : bytes :=
  lit "SCRIPT_FILENAME should not include " ++ DQUOTE :: lit "../" ++ [DQUOTE].
Definition msg_not_under (script_filename check_directory : bytes) : bytes :=
  lit "[" ++ script_filename ++ lit "] doesn't reside under ["
  ++ check_directory ++ lit "]".
Definition msg_not_found : bytes := lit "Can't locate CGI script" ++ [LF].
Definition msg_exec_failed (reason : bytes) : bytes :=
  lit "Unable to execute CGI script, please contact the system administrator"
  ++ LF :: reason ++ [LF].

(** What [return_error] prints. *)
Definition response (status_msg formatted_msg : bytes) : bytes :=
  lit "Status: " ++ status_msg ++ CRLF
  ++ lit "Content-Type: text/plain" ++ CRLF ++ CRLF
  ++ formatted_msg ++ CRLF.

(** [return_error]: print the response, then [exit(1)]. *)
Definition return_error {A} (status_msg formatted_msg : bytes) : M A :=
  fun w =>
    Exits 1 (set_stdout (stdout w ++ response status_msg formatted_msg) w).

(** [read(0, buf, n)]: the bytes delivered; their number is what [read]
    returns. *)
Definition sys_read (n : nat) : M bytes :=
  fun w => Returns (firstn n (stdin w)) (set_stdin (skipn n (stdin w)) w).

(** [read_char].  The byte lands in the low byte of an [int] (the
    machine is little-endian) and the callers keep only that byte, in a
    [char]. *)
Definition read_char : M ascii :=
  got <- sys_read 1 ;;
  match got with
  | [ch] => ret ch
  | _ => return_error s500 msg_stream_truncated
  end.

(** The [while (1)] loop of [read_scgi_environment] that reads the rest of
    the length, up to the colon. *)
Fixpoint length_loop (fuel : nat) (length : Z) : M Z :=
  match fuel with
  | O => fun _ => OutOfFuel
  | S fuel' =>
      ch <- read_char ;;
      if isdigit ch then
        let length := wrap32 (length * 10 + (char_to_int ch - 48)) in
        if (length <? 0) || (length >? MAX_HEADER_LENGTH)
        then return_error s500 msg_length_range
        else length_loop fuel' length
      else if Ascii.eqb ch COLON then ret length
      else return_error s500_invalid (msg_bad_length_char ch)
  end.

(** Lines 93-114 of [read_scgi_environment]: the length, from the first
    digit to the colon.  Every turn of the loop reads a byte, so one turn
    more than there are bytes is enough. *)
Definition read_length : M Z :=
  ch <- read_char ;;
  length <- (if isdigit ch then ret (char_to_int ch - 48)
             else return_error s500 (msg_bad_start ch)) ;;
  (fun w => length_loop (S (List.length (stdin w))) length w).

(** The [while (name < headers + length)] loop, on offsets into [headers].
    The first component of the result lists the offsets of [headers] the
    loop examined, in order ([setenv] and the second [strlen(value)] read
    the bytes the first scans found, and are not listed again). *)
Fixpoint walk_loop (fuel : nat) (headers : bytes) (length name : nat)
    (seen : list nat) (w : world) : list nat * outcome unit :=
  if (name <? length)%nat then
    match fuel with
    | O => (seen, OutOfFuel)
    | S fuel' =>
        let seen := seen ++ scanned headers name in
        match strlen_at headers name with
        | None => (seen, Faults w)
        | Some n =>
            let value := (name + n + 1)%nat in
            if (length <=? value)%nat
            then (seen, return_error s500 msg_corrupt_table w)
            else
              let seen := seen ++ scanned headers value in
              match strlen_at headers value with
              | None => (seen, Faults w)
              | Some m =>
                  walk_loop fuel' headers length (value + m + 1)%nat seen
                    (set_environ
                       (setenv (string_at headers name n)
                          (string_at headers value m) true (environ w)) w)
              end
        end
    end
  else (seen, Returns tt w).

(** The [if (length) { ... }] block: the walk over the name/value table. *)
Definition walk_table (headers : bytes) (length : nat) : M unit :=
  fun w =>
    if (length =? 0)%nat then Returns tt w
    else snd (walk_loop length headers length 0 [] w).

(** The offsets of [headers] the walk examines. *)
Definition walk_seen (headers : bytes) (length : nat) (w : world) : list nat :=
  if (length =? 0)%nat then []
  else fst (walk_loop length headers length 0 [] w).

Section Program.

(** Whether [malloc] of that many bytes returns memory. *)
Variable malloc_ok : nat -> bool.
(** [execve]: [None] when the image is replaced, otherwise the [errno]
    it returns with. *)
Variable execve_errno : bytes -> list bytes -> env -> option Z.
Variable strerror : Z -> bytes.

Definition read_scgi_environment : M unit :=
  length <- read_length ;;
  (if malloc_ok (Z.to_nat (length + 1)) then ret tt
   else return_error s500 msg_no_memory) ;;;
  headers <- sys_read (Z.to_nat (length + 1)) ;;
  (if Z.of_nat (List.length headers) =? length + 1 then ret tt
   else return_error s500 msg_header_truncated) ;;;
  (if Ascii.eqb (nth (Z.to_nat length) headers NUL) COMMA then ret tt
   else return_error s500 msg_missing_comma) ;;;
  walk_table headers (Z.to_nat length).

(** [s[d]] for a C string [s]: the string's bytes and its NUL are the
    object; any other displacement is outside it. *)
Definition char_at (s : bytes) (d : Z) : option ascii :=
  if (0 <=? d) && (d <=? Z.of_nat (strlen s))
  then Some (nth (Z.to_nat d) s NUL) else None.

(** The index [strlen(arg) - 1], computed in [size_t]. *)
Definition last_index (arg : bytes) : Z :=
  wrap_size_t (Z.of_nat (strlen arg) - 1).

(** [arg[strlen(arg) - 1]]. *)
Definition last_char (arg : bytes) : option ascii :=
  char_at arg (displacement (last_index arg)).

(** Lines 162-174 of [main]: the script's path, the directory to check
    it against and the argument vector, each pointer possibly NULL. *)
Definition resolve_path (argv : list bytes)
  : M (option bytes * option bytes * list bytes) :=
  fun w =>
    let script_filename := getenv (lit "SCRIPT_FILENAME") (environ w) in
    let new_argv :=
      match script_filename with Some s => [s] | None => [] end in
    if (1 <? List.length argv)%nat then
      let arg := nth 1 argv [] in
      match last_char arg with
      | None => Faults w
      | Some c =>
          if Ascii.eqb c SLASH
          then Returns (script_filename, Some arg, new_argv) w
          else Returns (Some arg, None, skipn 1 argv) w
      end
    else Returns (script_filename, None, new_argv) w.

(** Lines 176-178. *)
Definition require_path (script_filename : option bytes) : M bytes :=
  match script_filename with
  | Some p => ret p
  | None => return_error s500 msg_missing_script
  end.

(** Lines 180-190: the two checks on the path. *)
Definition validate_path (script_filename : bytes)
    (check_directory : option bytes) : M unit :=
  (match strstr script_filename (lit "../") with
   | Some _ => return_error s500 msg_dotdot
   | None => ret tt
   end) ;;;
  match check_directory with
  | Some dir =>
      if strncmp dir script_filename (strlen dir) =? 0 then ret tt
      else return_error s500 (msg_not_under script_filename dir)
  | None => ret tt
  end.

(** Lines 192-200: [execve] and what follows when it returns. *)
Definition dispatch (script_filename : bytes) (exec_args : list bytes)
  : M unit :=
  fun w =>
    match execve_errno script_filename exec_args (environ w) with
    | None => Replaced script_filename exec_args (environ w) w
    | Some errno =>
        if errno =? ENOENT then return_error s404 msg_not_found w
        else return_error s500 (msg_exec_failed (strerror errno)) w
    end.

(** Lines 156-160: the header is read into the environment, which is
    then made to look like a CGI environment. *)
Definition build_environment : M unit :=
  read_scgi_environment ;;;
  (fun w => Returns tt (set_environ (unsetenv (lit "SCGI") (environ w)) w)) ;;;
  (fun w => Returns tt
     (set_environ
        (setenv (lit "GATEWAY_INTERFACE") (lit "CGI/1.1") true (environ w))
        w)).

Definition main (argv : list bytes) : M unit :=
  build_environment ;;;
  r <- resolve_path argv ;;
  let '(script_filename, check_directory, exec_args) := r in
  script_filename <- require_path script_filename ;;
  validate_path script_filename check_directory ;;;
  dispatch script_filename exec_args.

End Program.

(** ** The same program when the block [read] may return short

    [read(0, headers, length+1)] at line 123 is one call, not a loop: the
    system may deliver fewer bytes than were asked for although more are
    to come (a pipe or a socket does), or none.  [read_count n left] is
    the number of bytes the system is ready to deliver to a read of [n]
    bytes when [left] is what remains of the stream; the read gets no
    more than [n] of them and no more than remain.  The definitions above
    are the runs in which the read is given all it asks for. *)

Section Delivery.

Variable malloc_ok : nat -> bool.
Variable execve_errno : bytes -> list bytes -> env -> option Z.
Variable strerror : Z -> bytes.
Variable read_count : nat -> bytes -> nat.

(** [read(0, buf, n)]: the bytes delivered; their number is what [read]
    returns. *)
Definition sys_read_partial (n : nat) : M bytes :=
  fun w =>
    let k := Nat.min n (read_count n (stdin w)) in
    Returns (firstn k (stdin w)) (set_stdin (skipn k (stdin w)) w).

Definition read_scgi_environment_partial : M unit :=
  length <- read_length ;;
  (if malloc_ok (Z.to_nat (length + 1)) then ret tt
   else return_error s500 msg_no_memory) ;;;
  headers <- sys_read_partial (Z.to_nat (length + 1)) ;;
  (if Z.of_nat (List.length headers) =? length + 1 then ret tt
   else return_error s500 msg_header_truncated) ;;;
  (if Ascii.eqb (nth (Z.to_nat length) headers NUL) COMMA then ret tt
   else return_error s500 msg_missing_comma) ;;;
  walk_table headers (Z.to_nat length).

Definition build_environment_partial : M unit :=
  read_scgi_environment_partial ;;;
  (fun w => Returns tt (set_environ (unsetenv (lit "SCGI") (environ w)) w)) ;;;
  (fun w => Returns tt
     (set_environ
        (setenv (lit "GATEWAY_INTERFACE") (lit "CGI/1.1") true (environ w))
        w)).

Definition main_partial (argv : list bytes) : M unit :=
  build_environment_partial ;;;
  r <- resolve_path argv ;;
  let '(script_filename, check_directory, exec_args) := r in
  script_filename <- require_path script_filename ;;
  validate_path script_filename check_directory ;;;
  dispatch execve_errno strerror script_filename exec_args.

End Delivery.

(** ** Vocabulary of the properties *)

(** A C string holds no NUL. *)
Definition nul_free (s : bytes) : Prop := ~ In NUL s.

(** The payload made of the NUL-terminated strings [ss], in order. *)
Definition runs (ss : list bytes) : bytes :=
  List.concat (map (fun s => s ++ [NUL]) ss).

(** The strings taken two by two, as names and values. *)
Fixpoint pair_up (ss : list bytes) : list (bytes * bytes) :=
  match ss with
  | name :: value :: rest => (name, value) :: pair_up rest
  | _ => []
  end.

(** The environment after the pairs were set one after the other. *)
Definition apply_pairs (ps : list (bytes * bytes)) (e : env) : env :=
  fold_left (fun e p => setenv (fst p) (snd p) true e) ps e.

(** The value of the last pair of that name. *)
Fixpoint last_value (name : bytes) (ps : list (bytes * bytes))
  : option bytes :=
  match ps with
  | [] => None
  | (n, v) :: rest =>
      match last_value name rest with
      | Some v' => Some v'
      | None => if list_eq_dec ascii_dec n name then Some v else None
      end
  end.

(** The number a string of decimal digits denotes. *)
Definition digits_from (acc : Z) (ds : bytes) : Z :=
  fold_left (fun a c => a * 10 + (code c - 48)) ds acc.
Definition digits_value (ds : bytes) : Z := digits_from 0 ds.

(** A length prefix: one digit or more. *)
Definition is_length_prefix (ds : bytes) : Prop :=
  ds <> [] /\ forallb isdigit ds = true.

Definition has_substring (needle s : bytes) : Prop :=
  exists a b, s = a ++ needle ++ b.

Definition is_prefix (p s : bytes) : Prop := exists t, s = p ++ t.

(** The kinds of failure the specification distinguishes, and the
    responses of the program that belong to each. *)
Inductive error_kind : Set :=
| ProtocolError | ConfigError | SecurityError | ExecutionError.

Inductive reported : error_kind -> bytes -> bytes -> Prop :=
| rep_stream_truncated : reported ProtocolError s500 msg_stream_truncated
| rep_bad_start ch : reported ProtocolError s500 (msg_bad_start ch)
| rep_length_range : reported ProtocolError s500 msg_length_range
| rep_bad_length_char ch :
    reported ProtocolError s500_invalid (msg_bad_length_char ch)
| rep_header_truncated : reported ProtocolError s500 msg_header_truncated
| rep_missing_comma : reported ProtocolError s500 msg_missing_comma
| rep_corrupt_table : reported ProtocolError s500 msg_corrupt_table
| rep_missing_script : reported ConfigError s500 msg_missing_script
| rep_dotdot : reported SecurityError s500 msg_dotdot
| rep_not_under p d : reported SecurityError s500 (msg_not_under p d)
| rep_not_found : reported ExecutionError s404 msg_not_found
| rep_exec_failed reason :
    reported ExecutionError s500 (msg_exec_failed reason).

(** From [w], the run ends in a failure of kind [k]: one response of that
    kind is added to the output and the process exits with status 1. *)
Definition fails_with {A} (k : error_kind) (w : world) (o : outcome A)
  : Prop :=
  exists status_msg formatted_msg w',
    reported k status_msg formatted_msg /\
    o = Exits 1 w' /\
    stdout w' = stdout w ++ response status_msg formatted_msg.

(** The world a run ends in. *)
Definition final_world {A} (o : outcome A) : option world :=
  match o with
  | Returns _ w | Exits _ w | Replaced _ _ _ w | Faults w => Some w
  | OutOfFuel => None
  end.

(** A run from [w] that writes nothing, or ends by [return_error] after
    one response. *)
Definition writes_one_response {A} (w : world) (o : outcome A) : Prop :=
  match o with
  | Returns _ w' | Replaced _ _ _ w' | Faults w' => stdout w' = stdout w
  | Exits status w' =>
      status = 1 /\
      exists status_msg formatted_msg,
        In status_msg [s500; s500_invalid; s404] /\
        stdout w' = stdout w ++ response status_msg formatted_msg
  | OutOfFuel => True
  end.

(** A run that does not end with the image replaced: only [dispatch]
    replaces it. *)
Definition not_replaced {A} (o : outcome A) : Prop :=
  match o with Replaced _ _ _ _ => False | _ => True end.

(** A check of [nul_free] that computes. *)
Definition nul_freeb (s : bytes) : bool :=
  forallb (fun c => negb (Ascii.eqb c NUL)) s.

(** A run that reads no byte outside its object and does not replace
    the image. *)
Definition plain {A} (o : outcome A) : Prop :=
  match o with Replaced _ _ _ _ | Faults _ => False | _ => True end.

(** A run that leaves the environment as it found it, however it ends. *)
Definition keeps_environ {A} (w : world) (o : outcome A) : Prop :=
  match final_world o with
  | Some w' => environ w' = environ w
  | None => True
  end.

(** The digit loop and [read_length] over the integers: what they would
    compute if [int] had no bound, the range check unchanged. *)
Fixpoint length_loop_unbounded (fuel : nat) (length : Z) : M Z :=
  match fuel with
  | O => fun _ => OutOfFuel
  | S fuel' =>
      ch <- read_char ;;
      if isdigit ch then
        let length := length * 10 + (char_to_int ch - 48) in
        if (length <? 0) || (length >? MAX_HEADER_LENGTH)
        then return_error s500 msg_length_range
        else length_loop_unbounded fuel' length
      else if Ascii.eqb ch COLON then ret length
      else return_error s500_invalid (msg_bad_length_char ch)
  end.

Definition read_length_unbounded : M Z :=
  ch <- read_char ;;
  length <- (if isdigit ch then ret (char_to_int ch - 48)
             else return_error s500 (msg_bad_start ch)) ;;
  (fun w => length_loop_unbounded (S (List.length (stdin w))) length w).

(** ** The first argument where [execve] puts it

    [execve] copies the argument strings for the new program one after
    the other, each followed by its NUL.  In that block the byte in front
    of [argv[1]] is the NUL that ends [argv[0]]. *)

Definition argument_block (argv : list bytes) : bytes := runs argv.

(** The offset of [argv[i]] in the block. *)
Definition argument_offset (argv : list bytes) (i : nat) : nat :=
  List.length (runs (firstn i argv)).

(** [argv[i][d]] as the block holds it: the byte [d] places from the
    start of the argument, if that place is in the block. *)
Definition block_char_at (argv : list bytes) (i : nat) (d : Z)
  : option ascii :=
  let place := Z.of_nat (argument_offset argv i) + d in
  if (0 <=? place) && (place <? Z.of_nat (List.length (argument_block argv)))
  then Some (nth (Z.to_nat place) (argument_block argv) NUL) else None.

(** [argv[1][strlen(argv[1]) - 1]], read from the block. *)
Definition last_char_in_block (argv : list bytes) : option ascii :=
  block_char_at argv 1 (displacement (last_index (nth 1 argv []))).

(** Lines 162-174 of [main] with that read: [resolve_path], except that
    the byte in front of an empty first argument is found in the block. *)
Definition resolve_path_in_block (argv : list bytes)
  : M (option bytes * option bytes * list bytes) :=
  fun w =>
    let script_filename := getenv (lit "SCRIPT_FILENAME") (environ w) in
    let new_argv :=
      match script_filename with Some s => [s] | None => [] end in
    if (1 <? List.length argv)%nat then
      let arg := nth 1 argv [] in
      match last_char_in_block argv with
      | None => Faults w
      | Some c =>
          if Ascii.eqb c SLASH
          then Returns (script_filename, Some arg, new_argv) w
          else Returns (Some arg, None, skipn 1 argv) w
      end
    else Returns (script_filename, None, new_argv) w.

(** ** Sample runs *)

(** A system with memory to give, and one where [execve] succeeds or
    returns with a given [errno]. *)
Definition always_memory : nat -> bool := fun _ => true.
Definition exec_succeeds : bytes -> list bytes -> env -> option Z :=
  fun _ _ _ => None.
Definition sample_strerror : Z -> bytes := fun _ => lit "Permission denied".

(** A system without memory to give, one whose reads deliver all that is
    asked for, and one whose reads deliver two bytes at a time. *)
Definition never_memory : nat -> bool := fun _ => false.
Definition delivers_all : nat -> bytes -> nat := fun n _ => n.
Definition delivers_two : nat -> bytes -> nat := fun _ _ => 2%nat.

(** The request of the specification's end-to-end example. *)
Definition sample_strings : list bytes :=
  [lit "CONTENT_LENGTH"; lit "0"; lit "SCGI"; lit "1";
   lit "SCRIPT_FILENAME"; lit "/srv/cgi/a.cgi"].
Definition sample_world : world :=
  mkWorld (lit "55" ++ COLON :: runs sample_strings ++ COMMA :: lit "body")
    [] [lit "PATH=/bin"].

(** The environment and the world the handler of that request starts
    in. *)
Definition sample_handler_env : env :=
  [lit "PATH=/bin"; lit "CONTENT_LENGTH=0";
   lit "SCRIPT_FILENAME=/srv/cgi/a.cgi"; lit "GATEWAY_INTERFACE=CGI/1.1"].
Definition sample_handler_world : world :=
  mkWorld (lit "body") [] sample_handler_env.

(** A table of 262145 bytes: a name and a long value. *)
Definition oversized_strings : list bytes :=
  [lit "A"; repeat "x"%char (Z.to_nat 262142)].
Definition oversized_world : world :=
  mkWorld (lit "262145" ++ COLON :: runs oversized_strings ++ [COMMA]) [] [].

(** A table whose one name holds an equals sign. *)
Definition odd_name_strings : list bytes := [lit "A=B"; lit "c"].
Definition odd_name_world : world :=
  mkWorld (lit "6" ++ COLON :: runs odd_name_strings ++ [COMMA]) [] [].

(** A table whose last string nothing ends. *)
Definition open_payload : bytes := lit "a" ++ NUL :: lit "b".

(** ** Bytes, digits and machine integers *)

Lemma isdigit_code (c : ascii) :
  isdigit c = true -> 48 <= code c <= 57.
Proof.
  unfold isdigit. rewrite andb_true_iff, !Z.leb_le. tauto.
Qed.

Lemma isdigit_char_to_int (c : ascii) :
  isdigit c = true -> char_to_int c = code c.
Proof.
  intros H. apply isdigit_code in H. unfold char_to_int.
  destruct (Z.ltb_spec (code c) 128); lia.
Qed.

Lemma colon_not_digit : isdigit COLON = false.
Proof. reflexivity. Qed.

Lemma wrap32_small (z : Z) : - 2 ^ 31 <= z < 2 ^ 31 -> wrap32 z = z.
Proof.
  intros H. unfold wrap32. rewrite Z.mod_small; lia.
Qed.

Lemma digits_from_cons (v : Z) (c : ascii) (ds : bytes) :
  digits_from v (c :: ds) = digits_from (v * 10 + (code c - 48)) ds.
Proof. reflexivity. Qed.

Lemma digits_from_grows (ds : bytes) :
  forall v, forallb isdigit ds = true -> 0 <= v -> v <= digits_from v ds.
Proof.
  induction ds as [|c ds IH]; intros v Hd Hv.
  - unfold digits_from. simpl. lia.
  - simpl in Hd. apply andb_true_iff in Hd. destruct Hd as [Hc Hd].
    apply isdigit_code in Hc. rewrite digits_from_cons.
    specialize (IH (v * 10 + (code c - 48)) Hd). lia.
Qed.

(** ** The world and the monad *)

Lemma set_stdin_same (w : world) : set_stdin (stdin w) w = w.
Proof. destruct w. reflexivity. Qed.

Lemma set_environ_same (w : world) : set_environ (environ w) w = w.
Proof. destruct w. reflexivity. Qed.

Lemma read_char_cons (c : ascii) (r : bytes) (w : world) :
  stdin w = c :: r -> read_char w = Returns c (set_stdin r w).
Proof.
  intros H. unfold read_char, bind, sys_read. rewrite H. simpl.
  destruct r; reflexivity.
Qed.

Lemma read_char_nil (w : world) :
  stdin w = [] -> read_char w = return_error s500 msg_stream_truncated w.
Proof.
  intros H. unfold read_char, bind, sys_read. rewrite H. simpl.
  rewrite <- H, set_stdin_same. reflexivity.
Qed.

(** ** Reading the length *)

(** The digit loop, on digits that stay within the bound and end with a
    colon: it returns their value and has read up to the colon. *)
Lemma length_loop_accepts (ds : bytes) :
  forall (v : Z) (fuel : nat) (rest : bytes) (w : world),
    forallb isdigit ds = true ->
    0 <= v ->
    digits_from v ds <= MAX_HEADER_LENGTH ->
    (List.length ds < fuel)%nat ->
    stdin w = ds ++ COLON :: rest ->
    length_loop fuel v w = Returns (digits_from v ds) (set_stdin rest w).
Proof.
  induction ds as [|c ds IH]; intros v fuel rest w Hd Hv Hmax Hfuel Hin;
    (destruct fuel as [|fuel]; [simpl in Hfuel; lia|]).
  - simpl in Hin. cbn [length_loop]. unfold bind.
    rewrite (read_char_cons _ _ _ Hin). rewrite colon_not_digit.
    reflexivity.
  - simpl in Hd. apply andb_true_iff in Hd. destruct Hd as [Hc Hd].
    simpl in Hin. cbn [length_loop]. unfold bind.
    rewrite (read_char_cons _ _ _ Hin). rewrite Hc.
    rewrite (isdigit_char_to_int _ Hc).
    pose proof (isdigit_code _ Hc) as Hcode.
    rewrite digits_from_cons in *.
    assert (Hle : v * 10 + (code c - 48) <= MAX_HEADER_LENGTH).
    { pose proof (digits_from_grows ds (v * 10 + (code c - 48)) Hd). lia. }
    unfold MAX_HEADER_LENGTH in *.
    rewrite wrap32_small by lia.
    destruct (Z.ltb_spec (v * 10 + (code c - 48)) 0); [lia|].
    destruct (Z.gtb_spec (v * 10 + (code c - 48)) 262144); [lia|].
    cbn [orb].
    simpl in Hfuel.
    rewrite (IH _ fuel rest (set_stdin (ds ++ COLON :: rest) w)); simpl;
      try reflexivity; try assumption; try lia.
Qed.

(** The digit loop, on digits whose value passes the bound: it ends in
    [return_error] at the first digit that takes the value past the
    bound, before it read anything after the digits. *)
Lemma length_loop_rejects (ds : bytes) :
  forall (v : Z) (fuel : nat) (rest : bytes) (w : world),
    forallb isdigit ds = true ->
    0 <= v <= MAX_HEADER_LENGTH ->
    MAX_HEADER_LENGTH < digits_from v ds ->
    (List.length ds < fuel)%nat ->
    stdin w = ds ++ rest ->
    exists seen unread,
      ds = seen ++ unread /\
      length_loop fuel v w =
        return_error s500 msg_length_range (set_stdin (unread ++ rest) w).
Proof.
  induction ds as [|c ds IH]; intros v fuel rest w Hd Hv Hmax Hfuel Hin.
  - unfold digits_from in Hmax. simpl in Hmax. lia.
  - destruct fuel as [|fuel]; [simpl in Hfuel; lia|].
    simpl in Hd. apply andb_true_iff in Hd. destruct Hd as [Hc Hd].
    simpl in Hin. cbn [length_loop]. unfold bind.
    rewrite (read_char_cons _ _ _ Hin). rewrite Hc.
    rewrite (isdigit_char_to_int _ Hc).
    pose proof (isdigit_code _ Hc) as Hcode.
    rewrite digits_from_cons in Hmax.
    unfold MAX_HEADER_LENGTH in *.
    rewrite wrap32_small by lia.
    destruct (Z.ltb_spec (v * 10 + (code c - 48)) 0); [lia|].
    destruct (Z.gtb_spec (v * 10 + (code c - 48)) 262144).
    + exists [c], ds. split; reflexivity.
    + cbn [orb]. simpl in Hfuel.
      destruct (IH (v * 10 + (code c - 48)) fuel rest
                  (set_stdin (ds ++ rest) w)) as (seen & unread & E & R);
        simpl; try assumption; try reflexivity; try lia.
      exists (c :: seen), unread. split; [simpl; congruence|].
      rewrite R. reflexivity.
Qed.

Lemma read_length_accepts (ds rest : bytes) (w : world) :
  is_length_prefix ds ->
  digits_value ds <= MAX_HEADER_LENGTH ->
  stdin w = ds ++ COLON :: rest ->
  read_length w = Returns (digits_value ds) (set_stdin rest w).
Proof.
  intros [Hne Hd] Hmax Hin.
  destruct ds as [|c ds]; [congruence|].
  simpl in Hd. apply andb_true_iff in Hd. destruct Hd as [Hc Hd].
  simpl in Hin. unfold read_length, bind.
  rewrite (read_char_cons _ _ _ Hin). rewrite Hc. unfold ret.
  rewrite (isdigit_char_to_int _ Hc).
  pose proof (isdigit_code _ Hc) as Hcode.
  unfold digits_value in *. rewrite digits_from_cons in *.
  replace (0 * 10 + (code c - 48)) with (code c - 48) in * by lia.
  rewrite (length_loop_accepts ds (code c - 48) _ rest);
    try assumption; try reflexivity; try lia.
  cbn [stdin set_stdin]. rewrite length_app. lia.
Qed.

Lemma read_length_rejects (ds rest : bytes) (w : world) :
  is_length_prefix ds ->
  MAX_HEADER_LENGTH < digits_value ds ->
  stdin w = ds ++ rest ->
  exists seen unread,
    ds = seen ++ unread /\
    read_length w =
      return_error s500 msg_length_range (set_stdin (unread ++ rest) w).
Proof.
  intros [Hne Hd] Hmax Hin.
  destruct ds as [|c ds]; [congruence|].
  simpl in Hd. apply andb_true_iff in Hd. destruct Hd as [Hc Hd].
  simpl in Hin. unfold read_length, bind.
  rewrite (read_char_cons _ _ _ Hin). rewrite Hc. unfold ret.
  rewrite (isdigit_char_to_int _ Hc).
  pose proof (isdigit_code _ Hc) as Hcode.
  unfold digits_value in Hmax. rewrite digits_from_cons in Hmax.
  replace (0 * 10 + (code c - 48)) with (code c - 48) in Hmax by lia.
  destruct (length_loop_rejects ds (code c - 48)
              (S (List.length (ds ++ rest))) rest
              (set_stdin (ds ++ rest) w)) as (seen & unread & E & R);
    try assumption; try reflexivity.
  - unfold MAX_HEADER_LENGTH. lia.
  - rewrite length_app. lia.
  - exists (c :: seen), unread. split; [simpl; congruence|].
    cbn [stdin set_stdin]. rewrite R. reflexivity.
Qed.

(** ** Lists and scans *)

Lemma skipn_length_app {A} (a b : list A) : skipn (List.length a) (a ++ b) = b.
Proof. induction a; simpl; auto. Qed.

Lemma firstn_length_app {A} (a b : list A) :
  firstn (List.length a) (a ++ b) = a.
Proof. induction a; simpl; congruence. Qed.

Lemma nth_length_app {A} (a b : list A) (x d : A) :
  nth (List.length a) (a ++ x :: b) d = x.
Proof. induction a; simpl; auto. Qed.

Lemma nul_free_cons (c : ascii) (s : bytes) :
  nul_free (c :: s) <-> c <> NUL /\ nul_free s.
Proof.
  unfold nul_free. simpl. split.
  - intros H. split; intros E; apply H; auto.
  - intros [H1 H2] [E|E]; auto.
Qed.

(** The scan stops at the NUL that ends a string. *)
Lemma scan_nul_run (s t : bytes) :
  nul_free s -> scan_nul (s ++ NUL :: t) = Some (List.length s).
Proof.
  induction s as [|c s IH]; intros H.
  - reflexivity.
  - apply nul_free_cons in H. destruct H as [Hc Hs]. simpl.
    apply Ascii.eqb_neq in Hc. rewrite Hc, (IH Hs). reflexivity.
Qed.

(** What a scan that stops has found. *)
Lemma scan_nul_some (l : bytes) :
  forall n, scan_nul l = Some n ->
    exists s t, l = s ++ NUL :: t /\ List.length s = n /\ nul_free s.
Proof.
  induction l as [|c l IH]; intros n H; simpl in H.
  - discriminate.
  - destruct (Ascii.eqb_spec c NUL) as [E|E].
    + inversion H. subst. exists [], l. repeat split. intros [].
    + destruct (scan_nul l) as [m|] eqn:Em; [|discriminate].
      simpl in H. inversion H. subst.
      destruct (IH m eq_refl) as (s & t & El & Es & Hs).
      exists (c :: s), t. subst l. repeat split.
      * simpl. congruence.
      * apply nul_free_cons. auto.
Qed.

(** A scan that meets no NUL leaves the buffer. *)
Lemma scan_nul_none (l : bytes) : nul_free l <-> scan_nul l = None.
Proof.
  induction l as [|c l IH]; simpl.
  - split; auto. intros _ [].
  - rewrite nul_free_cons. destruct (Ascii.eqb_spec c NUL) as [E|E].
    + split; [tauto|discriminate].
    + destruct (scan_nul l); simpl; split; try discriminate; try tauto.
      intros [_ H]. apply IH in H. discriminate.
Qed.

Lemma strlen_at_run (pre s t : bytes) :
  nul_free s ->
  strlen_at (pre ++ s ++ NUL :: t) (List.length pre) = Some (List.length s).
Proof.
  intros H. unfold strlen_at. rewrite skipn_length_app.
  apply scan_nul_run. exact H.
Qed.

Lemma string_at_run (pre s t : bytes) :
  string_at (pre ++ s ++ t) (List.length pre) (List.length s) = s.
Proof.
  unfold string_at. rewrite skipn_length_app. apply firstn_length_app.
Qed.

Lemma runs_cons (s : bytes) (ss : list bytes) :
  runs (s :: ss) = s ++ NUL :: runs ss.
Proof. unfold runs. simpl. rewrite <- app_assoc. reflexivity. Qed.

(** Induction on a list taken two elements at a time. *)
Lemma pairs_ind {A} (P : list A -> Prop) :
  P [] -> (forall a, P [a]) ->
  (forall a b l, P l -> P (a :: b :: l)) ->
  forall l, P l.
Proof.
  intros H0 H1 H2.
  assert (H : forall l, P l /\ forall a, P (a :: l)).
  { induction l as [|b l [IH1 IH2]]; split; auto. }
  intros l. apply H.
Qed.

(** ** The walk over a table of complete strings *)

(** From the start of the strings [ss], with fuel for each of their bytes,
    the loop sets the pairs in order; it returns when the strings are an
    even number and reports a corrupt table when they are an odd number. *)
Lemma walk_loop_runs (ss : list bytes) :
  forall (pre tl : bytes) (fuel : nat) (seen : list nat) (w : world),
    Forall nul_free ss ->
    (List.length (runs ss) <= fuel)%nat ->
    snd (walk_loop fuel (pre ++ runs ss ++ tl)
           (List.length pre + List.length (runs ss)) (List.length pre) seen w)
    = let w' := set_environ (apply_pairs (pair_up ss) (environ w)) w in
      if Nat.even (List.length ss) then Returns tt w'
      else return_error s500 msg_corrupt_table w'.
Proof.
  induction ss as [|a|a b ss IH] using pairs_ind;
    intros pre tl fuel seen w Hnf Hfuel.
  - simpl. destruct fuel; simpl;
      rewrite Nat.add_0_r, Nat.ltb_irrefl, set_environ_same; reflexivity.
  - inversion Hnf as [|? ? Ha _]; subst.
    rewrite runs_cons in *. change (runs []) with (@nil ascii) in *.
    rewrite length_app in *. simpl List.length in *.
    destruct fuel as [|fuel]; [lia|].
    cbn [walk_loop].
    destruct (Nat.ltb_spec (List.length pre)
                (List.length pre + (List.length a + 1))); [|lia].
    rewrite <- app_assoc. cbn [app].
    rewrite (strlen_at_run pre a tl Ha).
    destruct (Nat.leb_spec (List.length pre + (List.length a + 1))
                (List.length pre + List.length a + 1)); [|lia].
    simpl. rewrite set_environ_same. reflexivity.
  - inversion Hnf as [|? ? Ha Hnf']; subst.
    inversion Hnf' as [|? ? Hb Hss]; subst.
    rewrite !runs_cons in *.
    destruct fuel as [|fuel]; [rewrite length_app in Hfuel; simpl in Hfuel; lia|].
    cbn [walk_loop].
    assert (Hlen : List.length (a ++ NUL :: b ++ NUL :: runs ss)
                   = (List.length a + 1 + (List.length b + 1)
                      + List.length (runs ss))%nat).
    { rewrite length_app. simpl. rewrite length_app. simpl. lia. }
    rewrite Hlen in *.
    destruct (Nat.ltb_spec (List.length pre)
                (List.length pre + (List.length a + 1 + (List.length b + 1)
                                    + List.length (runs ss)))); [|lia].
    set (buf := pre ++ (a ++ NUL :: b ++ NUL :: runs ss) ++ tl).
    assert (E1 : buf = pre ++ a ++ NUL :: (b ++ NUL :: runs ss ++ tl)).
    { unfold buf. rewrite <- !app_assoc. simpl. rewrite <- !app_assoc.
      reflexivity. }
    assert (E2 : buf = (pre ++ a ++ [NUL]) ++ b ++ NUL :: (runs ss ++ tl)).
    { rewrite E1. rewrite <- !app_assoc. reflexivity. }
    assert (E4 : buf = (pre ++ a ++ NUL :: b ++ [NUL]) ++ runs ss ++ tl).
    { rewrite E1. rewrite <- !app_assoc. simpl. rewrite <- !app_assoc.
      reflexivity. }
    assert (L2 : (List.length pre + List.length a + 1)%nat
                 = List.length (pre ++ a ++ [NUL])).
    { rewrite !length_app. simpl. lia. }
    assert (L4 : (List.length pre + List.length a + 1 + List.length b + 1)%nat
                 = List.length (pre ++ a ++ NUL :: b ++ [NUL])).
    { rewrite !length_app. simpl. rewrite length_app. simpl. lia. }
    assert (H1 : strlen_at buf (List.length pre) = Some (List.length a)).
    { rewrite E1. apply strlen_at_run, Ha. }
    assert (H2 : strlen_at buf (List.length pre + List.length a + 1)
                 = Some (List.length b)).
    { rewrite E2, L2. apply strlen_at_run, Hb. }
    assert (S1 : string_at buf (List.length pre) (List.length a) = a).
    { rewrite E1. apply string_at_run. }
    assert (S2 : string_at buf (List.length pre + List.length a + 1)
                   (List.length b) = b).
    { rewrite E2, L2. apply string_at_run. }
    rewrite H1.
    destruct (Nat.leb_spec
                (List.length pre + (List.length a + 1 + (List.length b + 1)
                                    + List.length (runs ss)))
                (List.length pre + List.length a + 1)); [lia|].
    rewrite H2, S1, S2, L4.
    replace (List.length pre + (List.length a + 1 + (List.length b + 1)
                                + List.length (runs ss)))%nat
      with (List.length (pre ++ a ++ NUL :: b ++ [NUL])
            + List.length (runs ss))%nat by lia.
    rewrite E4.
    rewrite IH; [|assumption|lia].
    simpl. reflexivity.
Qed.

(** ** The environment *)

Lemma starts_with_iff (p s : bytes) :
  starts_with p s = true <-> is_prefix p s.
Proof.
  unfold is_prefix. revert s.
  induction p as [|a p IH]; intros s; simpl.
  - split; eauto.
  - destruct s as [|b s].
    + split; [discriminate|]. intros [t E]. discriminate.
    + rewrite andb_true_iff, IH. split.
      * intros [E [t Et]]. apply Ascii.eqb_eq in E. subst. eauto.
      * intros [t E]. inversion E. subst. split; eauto.
        apply Ascii.eqb_refl.
Qed.

Lemma contains_false (c : ascii) (s : bytes) :
  contains c s = false <-> ~ In c s.
Proof.
  unfold contains. induction s as [|x s IH]; simpl.
  - tauto.
  - rewrite orb_false_iff, IH, Ascii.eqb_neq. intuition congruence.
Qed.

Lemma valid_name_equals_free (n : bytes) :
  valid_name n = true -> contains EQUALS n = false.
Proof.
  destruct n; simpl; [discriminate|]. intros H.
  apply negb_true_iff in H. exact H.
Qed.

Lemma valid_name_not_nil (n : bytes) : valid_name n = true -> n <> [].
Proof. destruct n; simpl; [discriminate|congruence]. Qed.

(** Two names without an equals sign that own the same entry are one
    name. *)
Lemma name_of_entry_unique (n : bytes) :
  forall n' t t',
    contains EQUALS n = false -> contains EQUALS n' = false ->
    n ++ EQUALS :: t = n' ++ EQUALS :: t' -> n = n'.
Proof.
  induction n as [|a n IH]; intros n' t t' Hn Hn' E.
  - destruct n' as [|b n']; [reflexivity|].
    simpl in E. inversion E. subst b.
    apply contains_false in Hn'. exfalso. apply Hn'. left. reflexivity.
  - destruct n' as [|b n'].
    + simpl in E. inversion E. subst a.
      apply contains_false in Hn. exfalso. apply Hn. left. reflexivity.
    + simpl in E. inversion E. subst b. f_equal.
      apply (IH n' t t'); auto.
      * apply contains_false. apply contains_false in Hn.
        intros H. apply Hn. right. exact H.
      * apply contains_false. apply contains_false in Hn'.
        intros H. apply Hn'. right. exact H.
Qed.

Lemma entry_matches_iff (n e : bytes) :
  entry_matches n e = true <-> exists t, e = n ++ EQUALS :: t.
Proof.
  unfold entry_matches. rewrite starts_with_iff. unfold is_prefix.
  split; intros [t E]; exists t; rewrite E, <- app_assoc; reflexivity.
Qed.

Lemma entry_matches_new (n v : bytes) :
  entry_matches n (n ++ EQUALS :: v) = true.
Proof. apply entry_matches_iff. eauto. Qed.

Lemma entry_matches_other (n n' e : bytes) :
  contains EQUALS n = false -> contains EQUALS n' = false -> n <> n' ->
  entry_matches n e = true -> entry_matches n' e = false.
Proof.
  intros Hn Hn' Hne H. destruct (entry_matches n' e) eqn:E; [|reflexivity].
  apply entry_matches_iff in H. apply entry_matches_iff in E.
  destruct H as [t Ht]. destruct E as [t' Et']. subst e.
  exfalso. apply Hne. eapply name_of_entry_unique; eauto.
Qed.

Lemma getenv_unfold (n : bytes) (e : env) :
  n <> [] ->
  getenv n e
  = option_map (skipn (S (List.length n))) (find (entry_matches n) e).
Proof. destruct n; [congruence|reflexivity]. Qed.

Lemma skipn_entry (n v : bytes) :
  skipn (S (List.length n)) (n ++ EQUALS :: v) = v.
Proof.
  induction n as [|c n IH]; [reflexivity|exact IH].
Qed.

Lemma getenv_add_same (n v : bytes) (e : env) :
  n <> [] -> getenv n (add_to_environ n v true e) = Some v.
Proof.
  intros Hn. rewrite getenv_unfold by exact Hn.
  induction e as [|x r IH]; cbn [add_to_environ find].
  - rewrite entry_matches_new. cbn [option_map].
    rewrite skipn_entry. reflexivity.
  - destruct (entry_matches n x) eqn:E; cbn [find].
    + rewrite entry_matches_new. cbn [option_map].
      rewrite skipn_entry. reflexivity.
    + rewrite E. exact IH.
Qed.

Lemma getenv_add_other (n n' v : bytes) (e : env) :
  contains EQUALS n = false -> contains EQUALS n' = false -> n <> n' ->
  getenv n' (add_to_environ n v true e) = getenv n' e.
Proof.
  intros Hn Hn' Hne. destruct n' as [|c n']; [reflexivity|].
  rewrite !getenv_unfold by congruence.
  assert (Hnew : entry_matches (c :: n') (n ++ EQUALS :: v) = false).
  { apply (entry_matches_other n (c :: n') _ Hn Hn' Hne).
    apply entry_matches_new. }
  induction e as [|x r IH]; cbn [add_to_environ find].
  - rewrite Hnew. reflexivity.
  - destruct (entry_matches n x) eqn:E; cbn [find].
    + rewrite Hnew.
      rewrite (entry_matches_other n (c :: n') x Hn Hn' Hne E). reflexivity.
    + destruct (entry_matches (c :: n') x); [reflexivity|exact IH].
Qed.

Lemma getenv_setenv_same (n v : bytes) (e : env) :
  valid_name n = true -> getenv n (setenv n v true e) = Some v.
Proof.
  intros H. unfold setenv. rewrite H.
  apply getenv_add_same, valid_name_not_nil, H.
Qed.

Lemma getenv_setenv_other (n n' v : bytes) (e : env) :
  contains EQUALS n' = false -> n <> n' ->
  getenv n' (setenv n v true e) = getenv n' e.
Proof.
  intros Hn' Hne. unfold setenv. destruct (valid_name n) eqn:H.
  - apply getenv_add_other; auto. apply valid_name_equals_free, H.
  - reflexivity.
Qed.

Lemma getenv_unsetenv_same (n : bytes) (e : env) :
  valid_name n = true -> getenv n (unsetenv n e) = None.
Proof.
  intros H. unfold unsetenv. rewrite H.
  rewrite getenv_unfold by (apply valid_name_not_nil, H).
  induction e as [|x r IH]; simpl.
  - reflexivity.
  - destruct (entry_matches n x) eqn:E; simpl.
    + exact IH.
    + rewrite E. exact IH.
Qed.

Lemma getenv_unsetenv_other (n n' : bytes) (e : env) :
  contains EQUALS n' = false -> n <> n' ->
  getenv n' (unsetenv n e) = getenv n' e.
Proof.
  intros Hn' Hne. unfold unsetenv. destruct (valid_name n) eqn:H;
    [|reflexivity].
  destruct n' as [|c n']; [reflexivity|].
  rewrite !getenv_unfold by congruence.
  induction e as [|x r IH]; simpl.
  - reflexivity.
  - destruct (entry_matches n x) eqn:E; simpl.
    + rewrite (entry_matches_other n (c :: n') x
                 (valid_name_equals_free _ H) Hn' Hne E). exact IH.
    + destruct (entry_matches (c :: n') x); [reflexivity|exact IH].
Qed.

Lemma apply_pairs_cons (n v : bytes) (ps : list (bytes * bytes)) (e : env) :
  apply_pairs ((n, v) :: ps) e = apply_pairs ps (setenv n v true e).
Proof. reflexivity. Qed.

(** A name no pair carries keeps the value it had. *)
Lemma getenv_apply_pairs_none (name : bytes) (ps : list (bytes * bytes)) :
  forall e, contains EQUALS name = false ->
    last_value name ps = None ->
    getenv name (apply_pairs ps e) = getenv name e.
Proof.
  induction ps as [|[n v] ps IH]; intros e Hname H.
  - reflexivity.
  - rewrite apply_pairs_cons. simpl in H.
    destruct (last_value name ps) eqn:L; [discriminate|].
    destruct (list_eq_dec ascii_dec n name) as [E|E]; [discriminate|].
    rewrite IH by auto. apply getenv_setenv_other; auto.
Qed.

(** Last write wins: a name carries the value of the last pair of that
    name. *)
Lemma getenv_apply_pairs_last (name value : bytes)
    (ps : list (bytes * bytes)) :
  forall e, valid_name name = true ->
    last_value name ps = Some value ->
    getenv name (apply_pairs ps e) = Some value.
Proof.
  induction ps as [|[n v] ps IH]; intros e Hname H.
  - discriminate.
  - rewrite apply_pairs_cons. simpl in H.
    destruct (last_value name ps) eqn:L.
    + inversion H. subst. apply IH; auto.
    + destruct (list_eq_dec ascii_dec n name) as [E|E]; [|discriminate].
      inversion H. subst.
      rewrite getenv_apply_pairs_none;
        auto using valid_name_equals_free, getenv_setenv_same.
Qed.

(** ** The header reader, once the length is read *)

Lemma digits_value_nonneg (ds : bytes) :
  forallb isdigit ds = true -> 0 <= digits_value ds.
Proof. intros H. apply (digits_from_grows ds 0 H). lia. Qed.

(** What [read_scgi_environment] does after a length prefix it accepts. *)
Lemma read_scgi_environment_after_length (malloc_ok : nat -> bool)
    (ds rest : bytes) (w : world) :
  is_length_prefix ds ->
  digits_value ds <= MAX_HEADER_LENGTH ->
  stdin w = ds ++ COLON :: rest ->
  read_scgi_environment malloc_ok w =
    let length := digits_value ds in
    let n := Z.to_nat (length + 1) in
    if malloc_ok n then
      let headers := firstn n rest in
      let w2 := set_stdin (skipn n rest) w in
      if Z.of_nat (List.length headers) =? length + 1 then
        if Ascii.eqb (nth (Z.to_nat length) headers NUL) COMMA
        then walk_table headers (Z.to_nat length) w2
        else return_error s500 msg_missing_comma w2
      else return_error s500 msg_header_truncated w2
    else return_error s500 msg_no_memory (set_stdin rest w).
Proof.
  intros Hds Hmax Hin. unfold read_scgi_environment, bind.
  rewrite (read_length_accepts ds rest w Hds Hmax Hin).
  cbv zeta. destruct (malloc_ok (Z.to_nat (digits_value ds + 1)));
    [|reflexivity].
  unfold ret, sys_read. cbn [stdin set_stdin stdout environ].
  destruct (Z.of_nat (List.length (firstn (Z.to_nat (digits_value ds + 1)) rest))
            =? digits_value ds + 1); [|reflexivity].
  destruct (Ascii.eqb
              (nth (Z.to_nat (digits_value ds))
                 (firstn (Z.to_nat (digits_value ds + 1)) rest) NUL) COMMA);
    reflexivity.
Qed.

(** On a complete netstring the reader goes on to walk the table. *)
Lemma read_scgi_environment_table (malloc_ok : nat -> bool)
    (ds payload body : bytes) (w : world) :
  is_length_prefix ds ->
  digits_value ds = Z.of_nat (List.length payload) ->
  digits_value ds <= MAX_HEADER_LENGTH ->
  malloc_ok (S (List.length payload)) = true ->
  stdin w = ds ++ COLON :: payload ++ COMMA :: body ->
  read_scgi_environment malloc_ok w
  = walk_table (payload ++ [COMMA]) (List.length payload) (set_stdin body w).
Proof.
  intros Hds Hlen Hmax Hmem Hin.
  rewrite (read_scgi_environment_after_length malloc_ok ds _ w Hds Hmax Hin).
  cbv zeta. rewrite Hlen.
  replace (Z.to_nat (Z.of_nat (List.length payload) + 1))
    with (S (List.length payload)) by lia.
  rewrite Nat2Z.id, Hmem.
  assert (E : payload ++ COMMA :: body = (payload ++ [COMMA]) ++ body)
    by (rewrite <- app_assoc; reflexivity).
  assert (L : S (List.length payload) = List.length (payload ++ [COMMA]))
    by (rewrite length_app; simpl; lia).
  rewrite E, L, firstn_length_app, skipn_length_app, <- L.
  destruct (Z.eqb_spec (Z.of_nat (S (List.length payload)))
              (Z.of_nat (List.length payload) + 1)); [|lia].
  rewrite nth_length_app. reflexivity.
Qed.

(** The loop ends, given fuel for the bytes ahead; it leaves the input
    alone and writes at most the response for a corrupt table. *)
Lemma walk_loop_outcome (fuel : nat) :
  forall (headers : bytes) (length name : nat) (seen : list nat) (w : world),
    (length - name <= fuel)%nat ->
    match snd (walk_loop fuel headers length name seen w) with
    | Returns _ w' | Faults w' => stdin w' = stdin w /\ stdout w' = stdout w
    | Exits status w' =>
        status = 1 /\ stdin w' = stdin w /\
        stdout w' = stdout w ++ response s500 msg_corrupt_table
    | Replaced _ _ _ _ | OutOfFuel => False
    end.
Proof.
  induction fuel as [|fuel IH]; intros headers length name seen w Hfuel.
  - simpl. destruct (Nat.ltb_spec name length); [lia|]. simpl. auto.
  - cbn [walk_loop]. destruct (Nat.ltb_spec name length); [|simpl; auto].
    destruct (strlen_at headers name) as [n|]; [|simpl; auto].
    destruct (Nat.leb_spec length (name + n + 1)); [simpl; auto|].
    destruct (strlen_at headers (name + n + 1)) as [m|]; [|simpl; auto].
    match goal with
    | |- context [walk_loop fuel headers length ?nm ?sn ?w'] =>
        specialize (IH headers length nm sn w')
    end.
    cbn [stdin stdout set_environ] in IH. apply IH. lia.
Qed.

Lemma walk_table_outcome (headers : bytes) (length : nat) (w : world) :
  match walk_table headers length w with
  | Returns _ w' | Faults w' => stdin w' = stdin w /\ stdout w' = stdout w
  | Exits status w' =>
      status = 1 /\ stdin w' = stdin w /\
      stdout w' = stdout w ++ response s500 msg_corrupt_table
  | Replaced _ _ _ _ | OutOfFuel => False
  end.
Proof.
  unfold walk_table. destruct (length =? 0)%nat; [simpl; auto|].
  apply walk_loop_outcome. lia.
Qed.

Lemma walk_table_runs (ss : list bytes) (tl : bytes) (w : world) :
  Forall nul_free ss ->
  walk_table (runs ss ++ tl) (List.length (runs ss)) w
  = let w' := set_environ (apply_pairs (pair_up ss) (environ w)) w in
    if Nat.even (List.length ss) then Returns tt w'
    else return_error s500 msg_corrupt_table w'.
Proof.
  intros Hss. unfold walk_table.
  destruct (Nat.eqb_spec (List.length (runs ss)) 0) as [E|E].
  - destruct ss as [|s ss].
    + simpl. rewrite set_environ_same. reflexivity.
    + rewrite runs_cons, length_app in E. simpl in E. lia.
  - apply (walk_loop_runs ss [] tl _ [] w Hss). lia.
Qed.

(** ** The string functions of the path checks *)

Lemma code_inj (a b : ascii) : code a = code b -> a = b.
Proof.
  unfold code. intros H. apply N2Z.inj in H.
  rewrite <- (ascii_N_embedding a), <- (ascii_N_embedding b), H.
  reflexivity.
Qed.

Lemma code_nonzero (a : ascii) : a <> NUL -> code a <> 0.
Proof.
  intros H E. apply H. apply code_inj. rewrite E. reflexivity.
Qed.

Lemma strstr_found (h needle : bytes) :
  strstr h needle <> None <-> has_substring needle h.
Proof.
  unfold has_substring. split.
  - induction h as [|c h IH]; simpl.
    + destruct (starts_with needle []) eqn:E; [|congruence].
      intros _. apply starts_with_iff in E. destruct E as [t E].
      exists [], t. exact E.
    + destruct (starts_with needle (c :: h)) eqn:E.
      * intros _. apply starts_with_iff in E. destruct E as [t E].
        exists [], t. exact E.
      * destruct (strstr h needle); [|simpl; congruence].
        intros _. destruct IH as (a & b & E'); [congruence|].
        exists (c :: a), b. rewrite E'. reflexivity.
  - intros (a & b & E). subst h. induction a as [|c a IH].
    + assert (S : starts_with needle ([] ++ needle ++ b) = true)
        by (apply starts_with_iff; exists b; reflexivity).
      destruct needle, b; simpl in *; try rewrite S; congruence.
    + cbn [app strstr].
      destruct (starts_with needle (c :: a ++ needle ++ b)); [congruence|].
      destruct (strstr (a ++ needle ++ b) needle); simpl; congruence.
Qed.

Lemma strncmp_prefix (d : bytes) :
  forall p, nul_free d ->
    (strncmp d p (strlen d) = 0 <-> is_prefix d p).
Proof.
  unfold strlen. induction d as [|x d IH]; intros p Hd.
  - simpl. split; auto. intros _. exists p. reflexivity.
  - apply nul_free_cons in Hd. destruct Hd as [Hx Hd].
    cbn [List.length strncmp]. destruct p as [|y p].
    + split.
      * intros E. exfalso. exact (code_nonzero x Hx E).
      * intros [t E]. discriminate.
    + destruct (Ascii.eqb_spec x y) as [E|E].
      * subst y. rewrite (IH p Hd). split; intros [t Et]; exists t.
        -- simpl. congruence.
        -- simpl in Et. congruence.
      * split.
        -- intros H. exfalso. apply E, code_inj. lia.
        -- intros [t Et]. simpl in Et. congruence.
Qed.

(** ** The last byte of the first argument *)

Lemma last_char_nonempty (arg : bytes) :
  arg <> [] -> Z.of_nat (strlen arg) < 2 ^ 63 ->
  displacement (last_index arg) = Z.of_nat (strlen arg) - 1 /\
  last_char arg = Some (last arg NUL).
Proof.
  intros Hne Hlen.
  assert (Hpos : 0 < Z.of_nat (strlen arg)).
  { destruct arg; [congruence|]. unfold strlen. simpl List.length. lia. }
  assert (D : displacement (last_index arg) = Z.of_nat (strlen arg) - 1).
  { unfold last_index, wrap_size_t, displacement.
    rewrite Z.mod_small by lia.
    destruct (Z.ltb_spec (Z.of_nat (strlen arg) - 1) (2 ^ 63)); lia. }
  split; [exact D|].
  unfold last_char, char_at. rewrite D.
  destruct (Z.leb_spec 0 (Z.of_nat (strlen arg) - 1)); [|lia].
  destruct (Z.leb_spec (Z.of_nat (strlen arg) - 1) (Z.of_nat (strlen arg)));
    [|lia].
  cbn [andb]. f_equal.
  replace (Z.to_nat (Z.of_nat (strlen arg) - 1))
    with (List.length arg - 1)%nat by (unfold strlen; lia).
  destruct (exists_last Hne) as (l & a & E). subst arg.
  rewrite last_last, length_app. simpl.
  replace (List.length l + 1 - 1)%nat with (List.length l) by lia.
  apply nth_length_app.
Qed.

Lemma last_char_empty :
  last_index [] = 2 ^ 64 - 1 /\ displacement (last_index []) = -1 /\
  last_char [] = None.
Proof. repeat split. Qed.

(** ** Which bytes the walk examines *)

Lemma skipn_app_le {A} (n : nat) (a b : list A) :
  (n <= List.length a)%nat -> skipn n (a ++ b) = skipn n a ++ b.
Proof.
  revert a. induction n as [|n IH]; intros a H; [reflexivity|].
  destruct a as [|x a]; simpl in *; [lia|]. apply IH. lia.
Qed.

(** In front of a NUL the scan stops at that NUL or before. *)
Lemma scan_nul_before (q t : bytes) :
  exists n, scan_nul (q ++ NUL :: t) = Some n /\ (n <= List.length q)%nat.
Proof.
  induction q as [|c q (n & E & H)]; simpl.
  - exists 0%nat. auto.
  - destruct (Ascii.eqb c NUL).
    + exists 0%nat. split; [reflexivity|lia].
    + rewrite E. exists (S n). split; [reflexivity|lia].
Qed.

(** In front of a byte that is not NUL and the comma, the scan stops
    before that byte or leaves the buffer. *)
Lemma scan_nul_open (q : bytes) (x : ascii) :
  x <> NUL ->
  scan_nul (q ++ [x; COMMA]) = None \/
  exists n, scan_nul (q ++ [x; COMMA]) = Some n /\ (n < List.length q)%nat.
Proof.
  intros Hx. induction q as [|c q IH]; simpl.
  - apply Ascii.eqb_neq in Hx. rewrite Hx. simpl. left. reflexivity.
  - destruct (Ascii.eqb c NUL).
    + right. exists 0%nat. split; [reflexivity|lia].
    + destruct IH as [E|(n & E & H)]; rewrite E; simpl; [left; reflexivity|].
      right. exists (S n). split; [reflexivity|lia].
Qed.

Lemma strlen_at_closed (p tl : bytes) (off : nat) :
  (off <= List.length p)%nat ->
  exists n, strlen_at (p ++ NUL :: tl) off = Some n /\
            (off + n <= List.length p)%nat.
Proof.
  intros H. unfold strlen_at. rewrite skipn_app_le by exact H.
  destruct (scan_nul_before (skipn off p) tl) as (n & E & Hn).
  exists n. split; [exact E|]. rewrite length_skipn in Hn. lia.
Qed.

Lemma strlen_at_open (p : bytes) (x : ascii) (off : nat) :
  x <> NUL -> (off <= List.length p)%nat ->
  strlen_at (p ++ [x; COMMA]) off = None \/
  exists n, strlen_at (p ++ [x; COMMA]) off = Some n /\
            (off + n < List.length p)%nat.
Proof.
  intros Hx H. unfold strlen_at. rewrite skipn_app_le by exact H.
  destruct (scan_nul_open (skipn off p) x Hx) as [E|(n & E & Hn)].
  - left. exact E.
  - right. exists n. split; [exact E|]. rewrite length_skipn in Hn. lia.
Qed.

(** When the payload ends with a NUL, the loop examines bytes of the
    payload only and does not fault. *)
Lemma walk_loop_closed (p tl : bytes) (fuel : nat) :
  forall (name : nat) (seen : list nat) (w : world),
    let length := S (List.length p) in
    let r := walk_loop fuel (p ++ NUL :: tl) length name seen w in
    Forall (fun i => (i < length)%nat) seen ->
    Forall (fun i => (i < length)%nat) (fst r) /\
    (forall w', snd r <> Faults w').
Proof.
  induction fuel as [|fuel IH]; intros name seen w length r Hseen;
    subst r; cbn [walk_loop].
  - destruct (name <? length)%nat; simpl; split; auto; congruence.
  - destruct (Nat.ltb_spec name length) as [Hlt|Hge];
      [|simpl; split; auto; congruence].
    destruct (strlen_at_closed p tl name) as (n & En & Hn);
      [subst length; lia|].
    assert (S1 : Forall (fun i => (i < length)%nat)
                   (seen ++ scanned (p ++ NUL :: tl) name)).
    { apply Forall_app. split; [exact Hseen|].
      unfold scanned. rewrite En. apply Forall_forall. intros i Hi.
      apply in_seq in Hi. subst length. lia. }
    rewrite En.
    destruct (Nat.leb_spec length (name + n + 1)) as [Hend|Hin];
      [simpl; split; [exact S1|unfold return_error; congruence]|].
    destruct (strlen_at_closed p tl (name + n + 1)) as (m & Em & Hm);
      [subst length; lia|].
    rewrite Em. apply IH.
    apply Forall_app. split; [exact S1|].
    unfold scanned. rewrite Em. apply Forall_forall. intros i Hi.
    apply in_seq in Hi. subst length. lia.
Qed.

(** When the payload ends with another byte than NUL, the loop reaches a
    string that nothing ends: the scan goes through the comma and past
    the end of the buffer. *)
Lemma walk_loop_open (p : bytes) (x : ascii) (fuel : nat) :
  x <> NUL ->
  forall (name : nat) (seen : list nat) (w : world),
    let length := S (List.length p) in
    let r := walk_loop fuel (p ++ [x; COMMA]) length name seen w in
    (name < length)%nat -> (length - name <= fuel)%nat ->
    In length (fst r) /\ In (S length) (fst r) /\
    exists w', snd r = Faults w'.
Proof.
  intros Hx. induction fuel as [|fuel IH];
    intros name seen w length r Hlt Hfuel; [lia|].
  subst r. cbn [walk_loop].
  destruct (Nat.ltb_spec name length) as [_|Hge]; [|lia].
  assert (Hlen : List.length (p ++ [x; COMMA]) = S length).
  { rewrite length_app. subst length. simpl. lia. }
  assert (Hover : forall off sn, (off < length)%nat ->
            strlen_at (p ++ [x; COMMA]) off = None ->
            In length (sn ++ scanned (p ++ [x; COMMA]) off) /\
            In (S length) (sn ++ scanned (p ++ [x; COMMA]) off)).
  { intros off sn Hoff E. unfold scanned. rewrite E, Hlen.
    split; apply in_or_app; right; apply in_seq; lia. }
  destruct (strlen_at_open p x name Hx) as [En|(n & En & Hn)];
    [subst length; lia| |].
  - rewrite En. destruct (Hover name seen Hlt En) as [H1 H2].
    simpl. eauto.
  - rewrite En.
    destruct (Nat.leb_spec length (name + n + 1)) as [Hend|Hin];
      [subst length; lia|].
    destruct (strlen_at_open p x (name + n + 1) Hx) as [Em|(m & Em & Hm)];
      [subst length; lia| |].
    + rewrite Em.
      destruct (Hover (name + n + 1)%nat
                  (seen ++ scanned (p ++ [x; COMMA]) name) Hin Em)
        as [H1 H2].
      simpl. eauto.
    + rewrite Em. apply IH; subst length; lia.
Qed.

(** ** One response for every failure *)

Lemma writes_bind {A B} (m : M A) (f : A -> M B) (w : world) :
  writes_one_response w (m w) ->
  (forall a w', stdout w' = stdout w -> writes_one_response w' (f a w')) ->
  writes_one_response w (bind m f w).
Proof.
  intros Hm Hf. unfold bind. destruct (m w) as [a w'| | | |]; simpl in *; auto.
  specialize (Hf a w' Hm).
  destruct (f a w'); simpl in *; try congruence.
  rewrite <- Hm. exact Hf.
Qed.

Lemma writes_ret {A} (a : A) (w : world) : writes_one_response w (ret a w).
Proof. reflexivity. Qed.

Lemma writes_return_error {A} (status_msg formatted_msg : bytes) (w : world) :
  In status_msg [s500; s500_invalid; s404] ->
  writes_one_response w (@return_error A status_msg formatted_msg w).
Proof.
  intros H. simpl. split; [reflexivity|].
  exists status_msg, formatted_msg. split; [exact H|reflexivity].
Qed.

Lemma in_s500 : In s500 [s500; s500_invalid; s404].
Proof. left. reflexivity. Qed.

Lemma in_s500_invalid : In s500_invalid [s500; s500_invalid; s404].
Proof. right. left. reflexivity. Qed.

Lemma in_s404 : In s404 [s500; s500_invalid; s404].
Proof. right. right. left. reflexivity. Qed.

Create HintDb responses.
#[local] Hint Resolve in_s500 in_s500_invalid in_s404 : responses.
#[local] Hint Resolve writes_ret writes_return_error : responses.

Lemma writes_read_char (w : world) : writes_one_response w (read_char w).
Proof.
  unfold read_char. apply writes_bind; [reflexivity|].
  intros [|c [|c' r]] w' _; auto with responses.
Qed.

Lemma writes_length_loop (fuel : nat) :
  forall (length : Z) (w : world),
    writes_one_response w (length_loop fuel length w).
Proof.
  induction fuel as [|fuel IH]; intros length w; cbn [length_loop].
  - exact I.
  - apply writes_bind; [apply writes_read_char|].
    intros ch w' _. destruct (isdigit ch).
    + destruct (_ || _); auto with responses.
    + destruct (Ascii.eqb ch COLON); auto with responses.
Qed.

Lemma writes_read_length (w : world) : writes_one_response w (read_length w).
Proof.
  unfold read_length. apply writes_bind; [apply writes_read_char|].
  intros ch w1 _. apply writes_bind.
  - destruct (isdigit ch); auto with responses.
  - intros length w2 _. apply writes_length_loop.
Qed.

Lemma writes_walk_table (headers : bytes) (length : nat) (w : world) :
  writes_one_response w (walk_table headers length w).
Proof.
  pose proof (walk_table_outcome headers length w) as H.
  destruct (walk_table headers length w); simpl; try tauto.
  destruct H as (H1 & _ & H3). split; [exact H1|].
  exists s500, msg_corrupt_table. auto with responses.
Qed.

Lemma writes_read_scgi_environment (malloc_ok : nat -> bool) (w : world) :
  writes_one_response w (read_scgi_environment malloc_ok w).
Proof.
  unfold read_scgi_environment.
  apply writes_bind; [apply writes_read_length|]. intros length w1 _.
  apply writes_bind; [destruct (malloc_ok _); auto with responses|].
  intros _ w2 _. apply writes_bind; [reflexivity|]. intros headers w3 _.
  apply writes_bind; [destruct (_ =? _); auto with responses|].
  intros _ w4 _.
  apply writes_bind; [destruct (Ascii.eqb _ _); auto with responses|].
  intros _ w5 _. apply writes_walk_table.
Qed.

Lemma writes_main (malloc_ok : nat -> bool)
    (execve_errno : bytes -> list bytes -> env -> option Z)
    (strerror : Z -> bytes) (argv : list bytes) (w : world) :
  writes_one_response w (main malloc_ok execve_errno strerror argv w).
Proof.
  unfold main, build_environment.
  apply writes_bind.
  { apply writes_bind; [apply writes_read_scgi_environment|].
    intros _ w1 _. apply writes_bind; [reflexivity|].
    intros _ w2 _. reflexivity. }
  intros _ w1 _. apply writes_bind.
  { unfold resolve_path. destruct (1 <? _)%nat; [|reflexivity].
    destruct (last_char _) as [c|]; [|reflexivity].
    destruct (Ascii.eqb c SLASH); reflexivity. }
  intros [[script_filename check_directory] exec_args] w2 _.
  apply writes_bind.
  { destruct script_filename; cbn [require_path]; auto with responses. }
  intros p w3 _. apply writes_bind.
  { unfold validate_path. apply writes_bind.
    - destruct (strstr p _); auto with responses.
    - intros _ w4 _. destruct check_directory as [d|]; auto with responses.
      destruct (_ =? 0); auto with responses. }
  intros _ w4 _. unfold dispatch.
  destruct (execve_errno p exec_args (environ w4)) as [errno|];
    [|reflexivity].
  destruct (errno =? ENOENT); auto with responses.
Qed.

(** ** Every run ends *)

Lemma length_loop_ends (fuel : nat) :
  forall (length : Z) (w : world),
    (List.length (stdin w) < fuel)%nat ->
    length_loop fuel length w <> OutOfFuel.
Proof.
  induction fuel as [|fuel IH]; intros length w H; [lia|].
  cbn [length_loop]. unfold bind. destruct (stdin w) as [|c r] eqn:E.
  - rewrite (read_char_nil w E). discriminate.
  - rewrite (read_char_cons c r w E). destruct (isdigit c).
    + destruct (_ || _); [discriminate|]. apply IH. simpl in *. lia.
    + destruct (Ascii.eqb c COLON); discriminate.
Qed.

Lemma read_length_ends (w : world) : read_length w <> OutOfFuel.
Proof.
  unfold read_length, bind. destruct (stdin w) as [|c r] eqn:E.
  - rewrite (read_char_nil w E). discriminate.
  - rewrite (read_char_cons c r w E).
    destruct (isdigit c); [|discriminate].
    unfold ret. apply length_loop_ends. lia.
Qed.

Lemma read_scgi_environment_ends (malloc_ok : nat -> bool) (w : world) :
  read_scgi_environment malloc_ok w <> OutOfFuel.
Proof.
  unfold read_scgi_environment. unfold bind at 1.
  pose proof (read_length_ends w) as HL.
  destruct (read_length w) as [length w1| | | |];
    try discriminate; try congruence.
  unfold bind at 1. destruct (malloc_ok _); [|discriminate].
  unfold ret, bind, sys_read.
  destruct (_ =? _); [|discriminate].
  destruct (Ascii.eqb _ _); [|discriminate].
  match goal with
  | |- walk_table ?h ?l ?x <> _ =>
      pose proof (walk_table_outcome h l x) as H;
      destruct (walk_table h l x); try discriminate; contradiction
  end.
Qed.

(** [main] ends: the image is replaced, the process exits, or a byte
    outside its object is read. *)
Lemma main_ends (malloc_ok : nat -> bool)
    (execve_errno : bytes -> list bytes -> env -> option Z)
    (strerror : Z -> bytes) (argv : list bytes) (w : world) :
  main malloc_ok execve_errno strerror argv w <> OutOfFuel.
Proof.
  unfold main, build_environment. unfold bind at 1. unfold bind at 1.
  pose proof (read_scgi_environment_ends malloc_ok w) as HR.
  destruct (read_scgi_environment malloc_ok w) as [[] w0| | | |];
    try discriminate; try congruence.
  unfold bind at 1. unfold bind at 1.
  unfold resolve_path. cbn [environ set_environ].
  destruct (1 <? List.length argv)%nat.
  - destruct (last_char (nth 1 argv [])) as [c|]; [|discriminate].
    destruct (Ascii.eqb c SLASH).
    + destruct (getenv _ _) as [q|]; [|discriminate].
      cbn [require_path]. unfold ret, bind, validate_path, bind, dispatch.
      destruct (strstr q _); [discriminate|]. unfold ret.
      destruct (_ =? 0); [|discriminate].
      destruct (execve_errno _ _ _) as [errno|]; [|discriminate].
      destruct (errno =? ENOENT); discriminate.
    + cbn [require_path]. unfold ret, bind, validate_path, bind, dispatch.
      destruct (strstr _ _); [discriminate|]. unfold ret.
      destruct (execve_errno _ _ _) as [errno|]; [|discriminate].
      destruct (errno =? ENOENT); discriminate.
  - destruct (getenv _ _) as [q|]; [|discriminate].
    cbn [require_path]. unfold ret, bind, validate_path, bind, dispatch.
    destruct (strstr q _); [discriminate|]. unfold ret.
    destruct (execve_errno _ _ _) as [errno|]; [|discriminate].
    destruct (errno =? ENOENT); discriminate.
Qed.

(** ** Checks that compute, for concrete strings *)

Lemma nul_freeb_sound (s : bytes) : nul_freeb s = true -> nul_free s.
Proof.
  unfold nul_freeb, nul_free. intros H Hin.
  rewrite forallb_forall in H. specialize (H NUL Hin). discriminate.
Qed.

Lemma all_nul_freeb_sound (ss : list bytes) :
  forallb nul_freeb ss = true -> Forall nul_free ss.
Proof.
  intros H. apply Forall_forall. intros s Hs.
  rewrite forallb_forall in H. apply nul_freeb_sound, H, Hs.
Qed.

Lemma nul_free_repeat (c : ascii) (n : nat) :
  c <> NUL -> nul_free (repeat c n).
Proof. intros Hc Hin. apply repeat_spec in Hin. congruence. Qed.

Lemma fails_with_return_error {A} (k : error_kind)
    (status_msg formatted_msg : bytes) (w0 w : world) :
  reported k status_msg formatted_msg ->
  stdout w = stdout w0 ->
  fails_with k w0 (@return_error A status_msg formatted_msg w).
Proof.
  intros Hr Hout. exists status_msg, formatted_msg.
  eexists. split; [exact Hr|]. split; [reflexivity|].
  simpl. rewrite Hout. reflexivity.
Qed.

(** ** The claims *)

(** C4.  A length prefix whose value passes [MAX_HEADER_LENGTH] makes the
    reader, and so [main], end in the response for a length out of range
    (a ProtocolError).  Of the input only digits of the prefix have been
    read, so nothing that follows them, and the environment is the one
    the run started with. *)
Theorem C4_oversized_length_rejected (malloc_ok : nat -> bool)
    (execve_errno : bytes -> list bytes -> env -> option Z)
    (strerror : Z -> bytes) (argv : list bytes)
    (ds rest : bytes) (w : world) :
  is_length_prefix ds ->
  MAX_HEADER_LENGTH < digits_value ds ->
  stdin w = ds ++ rest ->
  exists seen unread w',
    ds = seen ++ unread /\
    w' = mkWorld (unread ++ rest)
           (stdout w ++ response s500 msg_length_range) (environ w) /\
    read_scgi_environment malloc_ok w = Exits 1 w' /\
    main malloc_ok execve_errno strerror argv w = Exits 1 w' /\
    fails_with ProtocolError w (read_scgi_environment malloc_ok w).
Proof.
  intros Hds Hmax Hin.
  destruct (read_length_rejects ds rest w Hds Hmax Hin)
    as (seen & unread & E & R).
  exists seen, unread. eexists. split; [exact E|]. split; [reflexivity|].
  assert (H : read_scgi_environment malloc_ok w
              = Exits 1 (mkWorld (unread ++ rest)
                           (stdout w ++ response s500 msg_length_range)
                           (environ w))).
  { unfold read_scgi_environment, bind. rewrite R. reflexivity. }
  split; [exact H|]. split.
  - unfold main, build_environment, bind. rewrite H. reflexivity.
  - rewrite H. exists s500, msg_length_range. eexists.
    split; [constructor|]. split; reflexivity.
Qed.

Lemma C4_oversized_length_rejected_witness :
  exists seen unread w',
    lit "262145" = seen ++ unread /\
    w' = mkWorld (unread ++ lit ":abc")
           (response s500 msg_length_range) [lit "PATH=/bin"] /\
    read_scgi_environment always_memory
      (mkWorld (lit "262145:abc") [] [lit "PATH=/bin"]) = Exits 1 w' /\
    main always_memory exec_succeeds sample_strerror [lit "scgi_run"]
      (mkWorld (lit "262145:abc") [] [lit "PATH=/bin"]) = Exits 1 w' /\
    fails_with ProtocolError (mkWorld (lit "262145:abc") [] [lit "PATH=/bin"])
      (read_scgi_environment always_memory
         (mkWorld (lit "262145:abc") [] [lit "PATH=/bin"])).
Proof.
  apply (C4_oversized_length_rejected always_memory exec_succeeds
           sample_strerror [lit "scgi_run"] (lit "262145") (lit ":abc")
           (mkWorld (lit "262145:abc") [] [lit "PATH=/bin"])).
  - split; [discriminate|reflexivity].
  - vm_compute. reflexivity.
  - reflexivity.
Defined.

(** C3.  In the walk, a name that is followed by no value inside the
    L-byte region (the value would start at or past offset L) ends the
    run in the response for a corrupt table, a ProtocolError.  This is
    what happens to every table made of an odd number of complete
    NUL-terminated strings: the pairs before the last string are set,
    then the last string is found to have no value. *)
Theorem C3_corrupt_table_rejected :
  (forall (fuel : nat) (headers : bytes) (length name n : nat)
          (seen : list nat) (w : world),
      (name < length)%nat ->
      strlen_at headers name = Some n ->
      (length <= name + n + 1)%nat ->
      snd (walk_loop (S fuel) headers length name seen w)
      = return_error s500 msg_corrupt_table w /\
      fails_with ProtocolError w
        (snd (walk_loop (S fuel) headers length name seen w))) /\
  (forall (ss : list bytes) (tl : bytes) (w : world),
      Forall nul_free ss ->
      Nat.even (List.length ss) = false ->
      walk_table (runs ss ++ tl) (List.length (runs ss)) w
      = return_error s500 msg_corrupt_table
          (set_environ (apply_pairs (pair_up ss) (environ w)) w) /\
      fails_with ProtocolError w
        (walk_table (runs ss ++ tl) (List.length (runs ss)) w)) /\
  (forall (malloc_ok : nat -> bool) (ds : bytes) (ss : list bytes)
          (body : bytes) (w : world),
      is_length_prefix ds ->
      Forall nul_free ss ->
      Nat.even (List.length ss) = false ->
      digits_value ds = Z.of_nat (List.length (runs ss)) ->
      digits_value ds <= MAX_HEADER_LENGTH ->
      malloc_ok (S (List.length (runs ss))) = true ->
      stdin w = ds ++ COLON :: runs ss ++ COMMA :: body ->
      read_scgi_environment malloc_ok w
      = return_error s500 msg_corrupt_table
          (mkWorld body (stdout w) (apply_pairs (pair_up ss) (environ w)))).
Proof.
  split; [|split].
  - intros fuel headers length name n seen w Hlt Hn Hend.
    assert (E : snd (walk_loop (S fuel) headers length name seen w)
                = return_error s500 msg_corrupt_table w).
    { cbn [walk_loop].
      destruct (Nat.ltb_spec name length); [|lia]. rewrite Hn.
      destruct (Nat.leb_spec length (name + n + 1)); [|lia]. reflexivity. }
    split; [exact E|]. rewrite E.
    apply fails_with_return_error; [constructor|reflexivity].
  - intros ss tl w Hss Hodd.
    assert (E : walk_table (runs ss ++ tl) (List.length (runs ss)) w
                = return_error s500 msg_corrupt_table
                    (set_environ (apply_pairs (pair_up ss) (environ w)) w)).
    { rewrite (walk_table_runs ss tl w Hss). rewrite Hodd. reflexivity. }
    split; [exact E|]. rewrite E.
    apply fails_with_return_error; [constructor|reflexivity].
  - intros malloc_ok ds ss body w Hds Hss Hodd Hlen Hmax Hmem Hin.
    rewrite (read_scgi_environment_table malloc_ok ds (runs ss) body w
               Hds Hlen Hmax Hmem Hin).
    rewrite (walk_table_runs ss [COMMA] _ Hss). rewrite Hodd. reflexivity.
Qed.

Lemma C3_corrupt_table_rejected_witness :
  snd (walk_loop 1 (lit "ab" ++ [NUL; COMMA]) 3 0 [] (mkWorld [] [] []))
  = return_error s500 msg_corrupt_table (mkWorld [] [] []) /\
  walk_table (runs [lit "a"; lit "b"; lit "c"] ++ [COMMA])
    (List.length (runs [lit "a"; lit "b"; lit "c"])) (mkWorld [] [] [])
  = return_error s500 msg_corrupt_table (mkWorld [] [] [lit "a=b"]) /\
  read_scgi_environment always_memory
    (mkWorld (lit "6" ++ COLON :: runs [lit "a"; lit "b"; lit "c"]
                ++ COMMA :: lit "body") [] [])
  = return_error s500 msg_corrupt_table
      (mkWorld (lit "body") [] [lit "a=b"]).
Proof.
  destruct C3_corrupt_table_rejected as (H1 & H2 & H3).
  split; [|split].
  - apply (H1 0%nat (lit "ab" ++ [NUL; COMMA]) 3%nat 0%nat 2%nat).
    + simpl. lia.
    + reflexivity.
    + simpl. lia.
  - apply (H2 [lit "a"; lit "b"; lit "c"] [COMMA] (mkWorld [] [] [])).
    + apply all_nul_freeb_sound. reflexivity.
    + reflexivity.
  - apply (H3 always_memory (lit "6") [lit "a"; lit "b"; lit "c"]
             (lit "body")
             (mkWorld (lit "6" ++ COLON :: runs [lit "a"; lit "b"; lit "c"]
                         ++ COMMA :: lit "body") [] [])).
    + split; [discriminate|reflexivity].
    + apply all_nul_freeb_sound. reflexivity.
    + reflexivity.
    + reflexivity.
    + vm_compute. discriminate.
    + reflexivity.
    + reflexivity.
Defined.

(** C9.  When the payload ends with a NUL, every byte the walk examines
    lies in the payload and the walk does not fault.  When the payload
    ends with any other byte the walk always reaches a string that
    nothing ends inside the payload: the scan for its NUL examines the
    comma at offset L and then the byte after the L+1 bytes of the
    buffer, which is a fault.  In the payload a NUL b the check of the
    value's start (2 < 3) passes and it is the scan of the value that
    leaves the buffer. *)
Theorem C9_walk_bounds :
  (forall (p : bytes) (w : world),
      let payload := p ++ [NUL] in
      let L := List.length payload in
      Forall (fun i => (i < L)%nat) (walk_seen (payload ++ [COMMA]) L w) /\
      forall w', walk_table (payload ++ [COMMA]) L w <> Faults w') /\
  (forall (p : bytes) (x : ascii) (w : world),
      x <> NUL ->
      let payload := p ++ [x] in
      let L := List.length payload in
      In L (walk_seen (payload ++ [COMMA]) L w) /\
      In (S L) (walk_seen (payload ++ [COMMA]) L w) /\
      exists w', walk_table (payload ++ [COMMA]) L w = Faults w') /\
  (let headers := open_payload ++ [COMMA] in
   List.length open_payload = 3%nat /\
   strlen_at headers 0 = Some 1%nat /\
   strlen_at headers 2 = None /\
   scanned headers 2 = [2; 3; 4]%nat /\
   forall w, walk_table headers 3 w = Faults w).
Proof.
  split; [|split].
  - intros p w payload L. subst payload L.
    rewrite length_app. cbn [List.length]. rewrite Nat.add_1_r.
    rewrite <- app_assoc. cbn [app].
    unfold walk_seen, walk_table. cbn [Nat.eqb].
    apply (walk_loop_closed p [COMMA] (S (List.length p)) 0%nat [] w).
    constructor.
  - intros p x w Hx payload L. subst payload L.
    rewrite length_app. cbn [List.length]. rewrite Nat.add_1_r.
    rewrite <- app_assoc. cbn [app].
    unfold walk_seen, walk_table. cbn [Nat.eqb].
    apply (walk_loop_open p x (S (List.length p)) Hx 0%nat [] w); lia.
  - cbv zeta. repeat split.
Qed.

Lemma C9_walk_bounds_witness :
  In 3%nat (walk_seen (open_payload ++ [COMMA]) 3 (mkWorld [] [] [])) /\
  In 4%nat (walk_seen (open_payload ++ [COMMA]) 3 (mkWorld [] [] [])) /\
  exists w',
    walk_table (open_payload ++ [COMMA]) 3 (mkWorld [] [] []) = Faults w'.
Proof.
  destruct C9_walk_bounds as (_ & H & _).
  apply (H (lit "a" ++ [NUL]) "b"%char (mkWorld [] [] [])).
  discriminate.
Defined.

(** C10.  The byte [main] looks at to classify the first argument is at
    index strlen - 1.  For an argument that is not empty this is the
    index of its last byte.  For the empty argument the index wraps to
    2^64-1, which moves the pointer one byte back: the byte read is
    outside the argument, nothing in [main] prevents it, and the run
    faults there. *)
Theorem C10_first_argument_last_byte :
  (forall arg : bytes,
      arg <> [] -> Z.of_nat (strlen arg) < 2 ^ 63 ->
      0 <= displacement (last_index arg) < Z.of_nat (strlen arg) /\
      last_char arg = Some (last arg NUL)) /\
  (last_index [] = 2 ^ 64 - 1 /\ displacement (last_index []) = -1 /\
   last_char [] = None) /\
  (forall (prog : bytes) (more : list bytes) (w : world),
      resolve_path (prog :: [] :: more) w = Faults w).
Proof.
  split; [|split].
  - intros arg Hne Hlen.
    destruct (last_char_nonempty arg Hne Hlen) as [D E].
    split; [|exact E]. rewrite D.
    destruct arg; [congruence|]. unfold strlen. simpl List.length. lia.
  - exact last_char_empty.
  - intros prog more w. reflexivity.
Qed.

Lemma C10_first_argument_last_byte_witness :
  0 <= displacement (last_index (lit "/srv/")) < Z.of_nat (strlen (lit "/srv/"))
  /\ last_char (lit "/srv/") = Some (last (lit "/srv/") NUL).
Proof.
  destruct C10_first_argument_last_byte as (H & _).
  apply (H (lit "/srv/")).
  - discriminate.
  - vm_compute. reflexivity.
Defined.

(** ** From the header to the dispatcher *)

Lemma resolve_path_world (argv : list bytes) (w w' : world)
    (r : option bytes * option bytes * list bytes) :
  resolve_path argv w = Returns r w' -> w' = w.
Proof.
  unfold resolve_path. destruct (1 <? List.length argv)%nat.
  - destruct (last_char (nth 1 argv [])) as [c|]; [|discriminate].
    destruct (Ascii.eqb c SLASH); congruence.
  - congruence.
Qed.

Lemma validate_path_world (p : bytes) (cd : option bytes) (w w' : world) :
  validate_path p cd w = Returns tt w' -> w' = w.
Proof.
  unfold validate_path, bind.
  destruct (strstr p (lit "../")); [discriminate|]. unfold ret.
  destruct cd as [d|]; [|congruence].
  destruct (strncmp d p (strlen d) =? 0); [congruence|discriminate].
Qed.

Lemma build_environment_returns (malloc_ok : nat -> bool) (w w1 : world) :
  build_environment malloc_ok w = Returns tt w1 ->
  exists w0,
    read_scgi_environment malloc_ok w = Returns tt w0 /\
    environ w1
    = setenv (lit "GATEWAY_INTERFACE") (lit "CGI/1.1") true
        (unsetenv (lit "SCGI") (environ w0)).
Proof.
  unfold build_environment, bind.
  destruct (read_scgi_environment malloc_ok w) as [[] w0| | | |];
    try discriminate.
  intros H. inversion H. subst. exists w0. split; reflexivity.
Qed.

Lemma not_replaced_bind {A B} (m : M A) (f : A -> M B) (w : world) :
  not_replaced (m w) -> (forall a w', not_replaced (f a w')) ->
  not_replaced (bind m f w).
Proof.
  intros Hm Hf. unfold bind. destruct (m w); simpl in *; auto.
Qed.

Lemma not_replaced_read_char (w : world) : not_replaced (read_char w).
Proof.
  unfold read_char. apply not_replaced_bind; [exact I|].
  intros [|c [|c' r]] w'; exact I.
Qed.

Lemma not_replaced_length_loop (fuel : nat) :
  forall (length : Z) (w : world), not_replaced (length_loop fuel length w).
Proof.
  induction fuel as [|fuel IH]; intros length w; cbn [length_loop].
  - exact I.
  - apply not_replaced_bind; [apply not_replaced_read_char|].
    intros ch w'. destruct (isdigit ch).
    + destruct (_ || _); [exact I|apply IH].
    + destruct (Ascii.eqb ch COLON); exact I.
Qed.

Lemma not_replaced_read_scgi_environment (malloc_ok : nat -> bool)
    (w : world) :
  not_replaced (read_scgi_environment malloc_ok w).
Proof.
  unfold read_scgi_environment.
  apply not_replaced_bind.
  { unfold read_length. apply not_replaced_bind;
      [apply not_replaced_read_char|].
    intros ch w1. apply not_replaced_bind.
    - destruct (isdigit ch); exact I.
    - intros length w2. apply not_replaced_length_loop. }
  intros length w1.
  apply not_replaced_bind; [destruct (malloc_ok _); exact I|].
  intros _ w2. apply not_replaced_bind; [exact I|]. intros headers w3.
  apply not_replaced_bind; [destruct (_ =? _); exact I|]. intros _ w4.
  apply not_replaced_bind; [destruct (Ascii.eqb _ _); exact I|].
  intros _ w5.
  pose proof (walk_table_outcome headers (Z.to_nat length) w5) as H.
  destruct (walk_table headers (Z.to_nat length) w5); simpl; auto.
Qed.

Lemma not_replaced_build_environment (malloc_ok : nat -> bool) (w : world) :
  not_replaced (build_environment malloc_ok w).
Proof.
  unfold build_environment.
  apply not_replaced_bind; [apply not_replaced_read_scgi_environment|].
  intros _ w1. apply not_replaced_bind; [exact I|]. intros _ w2. exact I.
Qed.

Lemma not_replaced_resolve_path (argv : list bytes) (w : world) :
  not_replaced (resolve_path argv w).
Proof.
  unfold resolve_path. destruct (1 <? _)%nat; [|exact I].
  destruct (last_char _) as [c|]; [|exact I].
  destruct (Ascii.eqb c SLASH); exact I.
Qed.

Lemma not_replaced_validate_path (p : bytes) (cd : option bytes) (w : world) :
  not_replaced (validate_path p cd w).
Proof.
  unfold validate_path. apply not_replaced_bind.
  - destruct (strstr p _); exact I.
  - intros _ w'. destruct cd as [d|]; [|exact I].
    destruct (_ =? 0); exact I.
Qed.

(** The environment [execve] is given is the one [build_environment]
    left. *)
Lemma main_replaced (malloc_ok : nat -> bool)
    (execve_errno : bytes -> list bytes -> env -> option Z)
    (strerror : Z -> bytes) (argv : list bytes) (w w' : world)
    (p : bytes) (a : list bytes) (e : env) :
  main malloc_ok execve_errno strerror argv w = Replaced p a e w' ->
  exists w1, build_environment malloc_ok w = Returns tt w1 /\ e = environ w1.
Proof.
  intros H. unfold main in H. unfold bind at 1 in H.
  pose proof (not_replaced_build_environment malloc_ok w) as NB.
  destruct (build_environment malloc_ok w) as [[] w1| | | |];
    try discriminate; try contradiction.
  unfold bind at 1 in H.
  pose proof (not_replaced_resolve_path argv w1) as NR.
  destruct (resolve_path argv w1) as [[[sf cd] args] w2| | | |] eqn:R;
    try discriminate; try contradiction.
  apply resolve_path_world in R. subst w2.
  unfold bind at 1 in H. destruct sf as [q|]; [|discriminate].
  cbn [require_path ret] in H. unfold bind at 1 in H.
  pose proof (not_replaced_validate_path q cd w1) as NV.
  destruct (validate_path q cd w1) as [[] w3| | | |] eqn:V;
    try discriminate; try contradiction.
  apply validate_path_world in V. subst w3.
  unfold dispatch in H.
  destruct (execve_errno q args (environ w1)) as [errno|].
  - destruct (errno =? ENOENT); unfold return_error in H; discriminate H.
  - inversion H. eexists. split; reflexivity.
Qed.

(** What the reader does on a table of complete strings. *)
Lemma read_scgi_environment_runs (malloc_ok : nat -> bool)
    (ds : bytes) (ss : list bytes) (body : bytes) (w : world) :
  is_length_prefix ds ->
  Forall nul_free ss ->
  digits_value ds = Z.of_nat (List.length (runs ss)) ->
  digits_value ds <= MAX_HEADER_LENGTH ->
  malloc_ok (S (List.length (runs ss))) = true ->
  stdin w = ds ++ COLON :: runs ss ++ COMMA :: body ->
  read_scgi_environment malloc_ok w
  = let w' := mkWorld body (stdout w)
                (apply_pairs (pair_up ss) (environ w)) in
    if Nat.even (List.length ss) then Returns tt w'
    else return_error s500 msg_corrupt_table w'.
Proof.
  intros Hds Hss Hlen Hmax Hmem Hin.
  rewrite (read_scgi_environment_table malloc_ok ds (runs ss) body w
             Hds Hlen Hmax Hmem Hin).
  rewrite (walk_table_runs ss [COMMA] _ Hss).
  destruct (Nat.even (List.length ss)); reflexivity.
Qed.

(** When the reader returns on such a table, the environment holds the
    pairs, whatever the length and the memory were. *)
Lemma read_scgi_environment_returned (malloc_ok : nat -> bool)
    (ds : bytes) (ss : list bytes) (body : bytes) (w w0 : world) :
  is_length_prefix ds ->
  Forall nul_free ss ->
  digits_value ds = Z.of_nat (List.length (runs ss)) ->
  stdin w = ds ++ COLON :: runs ss ++ COMMA :: body ->
  read_scgi_environment malloc_ok w = Returns tt w0 ->
  environ w0 = apply_pairs (pair_up ss) (environ w).
Proof.
  intros Hds Hss Hlen Hin Hret.
  destruct (Z_le_gt_dec (digits_value ds) MAX_HEADER_LENGTH) as [Hmax|Hmax].
  - destruct (malloc_ok (S (List.length (runs ss)))) eqn:Hmem.
    + rewrite (read_scgi_environment_runs malloc_ok ds ss body w
                 Hds Hss Hlen Hmax Hmem Hin) in Hret.
      cbv zeta in Hret.
      destruct (Nat.even (List.length ss)); [|discriminate].
      inversion Hret. reflexivity.
    + rewrite (read_scgi_environment_after_length malloc_ok ds _ w
                 Hds Hmax Hin) in Hret.
      cbv zeta in Hret. rewrite Hlen in Hret.
      replace (Z.to_nat (Z.of_nat (List.length (runs ss)) + 1))
        with (S (List.length (runs ss))) in Hret by lia.
      rewrite Hmem in Hret. discriminate.
  - destruct (read_length_rejects ds (COLON :: runs ss ++ COMMA :: body) w
                Hds) as (seen & unread & _ & R); [lia|exact Hin|].
    unfold read_scgi_environment, bind in Hret. rewrite R in Hret.
    discriminate.
Qed.

Lemma markers_set (e : env) :
  let e' := setenv (lit "GATEWAY_INTERFACE") (lit "CGI/1.1") true
              (unsetenv (lit "SCGI") e) in
  getenv (lit "SCGI") e' = None /\
  getenv (lit "GATEWAY_INTERFACE") e' = Some (lit "CGI/1.1") /\
  forall name,
    contains EQUALS name = false ->
    name <> lit "SCGI" -> name <> lit "GATEWAY_INTERFACE" ->
    getenv name e' = getenv name e.
Proof.
  cbv zeta. split; [|split].
  - rewrite getenv_setenv_other; [|reflexivity|discriminate].
    apply getenv_unsetenv_same. reflexivity.
  - apply getenv_setenv_same. reflexivity.
  - intros name Hname H1 H2.
    rewrite getenv_setenv_other; [|exact Hname|congruence].
    apply getenv_unsetenv_other; [exact Hname|congruence].
Qed.

Lemma validate_path_dotdot (p : bytes) (cd : option bytes) (w : world) :
  has_substring (lit "../") p ->
  validate_path p cd w = return_error s500 msg_dotdot w.
Proof.
  intros H. apply strstr_found in H. unfold validate_path, bind.
  destruct (strstr p (lit "../")); [reflexivity|congruence].
Qed.

Lemma validate_path_clean (p : bytes) (cd : option bytes) (w : world) :
  ~ has_substring (lit "../") p ->
  validate_path p cd w
  = match cd with
    | Some d =>
        if strncmp d p (strlen d) =? 0 then Returns tt w
        else return_error s500 (msg_not_under p d) w
    | None => Returns tt w
    end.
Proof.
  intros H. unfold validate_path, bind.
  destruct (strstr p (lit "../")) eqn:E.
  - exfalso. apply H, strstr_found. congruence.
  - destruct cd as [d|]; [|reflexivity].
    unfold ret. destruct (strncmp d p (strlen d) =? 0); reflexivity.
Qed.

(** C2.  A path that holds [../] is rejected with the response that says
    so, a SecurityError, whether or not a directory to check against is
    given and whether or not the path lies under it.  With such a
    directory a path that does not begin with it, byte for byte, is
    rejected with a SecurityError.  A path that passes both checks goes
    on to [dispatch], in the same world. *)
Theorem C2_path_validation
    (execve_errno : bytes -> list bytes -> env -> option Z)
    (strerror : Z -> bytes)
    (p : bytes) (cd : option bytes) (args : list bytes) (w : world) :
  (forall d, cd = Some d -> nul_free d) ->
  (has_substring (lit "../") p ->
     validate_path p cd w = return_error s500 msg_dotdot w /\
     fails_with SecurityError w (validate_path p cd w)) /\
  (forall d, cd = Some d -> ~ is_prefix d p ->
     fails_with SecurityError w (validate_path p cd w) /\
     (~ has_substring (lit "../") p ->
        validate_path p cd w = return_error s500 (msg_not_under p d) w)) /\
  (~ has_substring (lit "../") p ->
   (forall d, cd = Some d -> is_prefix d p) ->
     validate_path p cd w = Returns tt w /\
     (validate_path p cd ;;; dispatch execve_errno strerror p args) w
     = dispatch execve_errno strerror p args w).
Proof.
  intros Hcd.
  assert (Hdd : has_substring (lit "../") p ->
                fails_with SecurityError w (validate_path p cd w)).
  { intros H. rewrite (validate_path_dotdot p cd w H).
    apply fails_with_return_error; [constructor|reflexivity]. }
  split; [|split].
  - intros H. split; [apply validate_path_dotdot, H|apply Hdd, H].
  - intros d Ed Hpre.
    assert (Hcmp : (strncmp d p (strlen d) =? 0) = false).
    { apply Z.eqb_neq. intros E. apply Hpre.
      apply strncmp_prefix; [apply Hcd, Ed|exact E]. }
    assert (Hclean : ~ has_substring (lit "../") p ->
              validate_path p cd w = return_error s500 (msg_not_under p d) w).
    { intros H. rewrite (validate_path_clean p cd w H). subst cd.
      rewrite Hcmp. reflexivity. }
    split; [|exact Hclean].
    destruct (strstr p (lit "../")) eqn:E.
    + apply Hdd, strstr_found. congruence.
    + rewrite Hclean.
      * apply fails_with_return_error; [constructor|reflexivity].
      * intros H. apply strstr_found in H. congruence.
  - intros H Hpre.
    assert (E : validate_path p cd w = Returns tt w).
    { rewrite (validate_path_clean p cd w H). destruct cd as [d|];
        [|reflexivity].
      assert (Hcmp : strncmp d p (strlen d) = 0).
      { apply strncmp_prefix; [apply Hcd|apply Hpre]; reflexivity. }
      rewrite Hcmp. reflexivity. }
    split; [exact E|]. unfold bind. rewrite E. reflexivity.
Qed.

Lemma C2_path_validation_witness :
  fails_with SecurityError (mkWorld [] [] [])
    (validate_path (lit "/var/www/cgi/../../../bin/sh")
       (Some (lit "/var/www/cgi/")) (mkWorld [] [] [])) /\
  fails_with SecurityError (mkWorld [] [] [])
    (validate_path (lit "/var/www/other/app.cgi")
       (Some (lit "/var/www/cgi/")) (mkWorld [] [] [])) /\
  validate_path (lit "/var/www/cgi/app.cgi")
    (Some (lit "/var/www/cgi/")) (mkWorld [] [] [])
  = Returns tt (mkWorld [] [] []).
Proof.
  assert (Hcd : forall d, Some (lit "/var/www/cgi/") = Some d -> nul_free d).
  { intros d E. inversion E. apply nul_freeb_sound. reflexivity. }
  split; [|split].
  - destruct (C2_path_validation exec_succeeds sample_strerror
                (lit "/var/www/cgi/../../../bin/sh")
                (Some (lit "/var/www/cgi/")) [] (mkWorld [] [] []) Hcd)
      as (H & _ & _).
    apply H. exists (lit "/var/www/cgi/"), (lit "../../bin/sh"). reflexivity.
  - destruct (C2_path_validation exec_succeeds sample_strerror
                (lit "/var/www/other/app.cgi")
                (Some (lit "/var/www/cgi/")) [] (mkWorld [] [] []) Hcd)
      as (_ & H & _).
    apply (H (lit "/var/www/cgi/") eq_refl).
    intros [t E]. discriminate E.
  - destruct (C2_path_validation exec_succeeds sample_strerror
                (lit "/var/www/cgi/app.cgi")
                (Some (lit "/var/www/cgi/")) [] (mkWorld [] [] []) Hcd)
      as (_ & _ & H).
    apply H.
    + intros E. apply strstr_found in E. apply E. reflexivity.
    + intros d E. inversion E. exists (lit "app.cgi"). reflexivity.
Defined.

(** What [resolve_path] yields when the first argument, if there is
    one, is not empty: without it the path is the SCRIPT_FILENAME of the
    environment; an argument that ends with a slash is the directory to
    check against; any other becomes the path, and the arguments from it
    on are the handler's.  A path that is still missing is a
    ConfigError. *)
Lemma resolve_path_cases (argv : list bytes) (w : world) :
  let from_env := getenv (lit "SCRIPT_FILENAME") (environ w) in
  let new_argv := match from_env with Some s => [s] | None => [] end in
  ((List.length argv <= 1)%nat ->
     resolve_path argv w = Returns (from_env, None, new_argv) w) /\
  (forall prog arg more,
     argv = prog :: arg :: more ->
     arg <> [] -> Z.of_nat (strlen arg) < 2 ^ 63 ->
     (last arg NUL = SLASH ->
        resolve_path argv w = Returns (from_env, Some arg, new_argv) w) /\
     (last arg NUL <> SLASH ->
        resolve_path argv w = Returns (Some arg, None, arg :: more) w)) /\
  (forall w', fails_with ConfigError w' (require_path None w')).
Proof.
  cbv zeta. split; [|split].
  - intros H. unfold resolve_path.
    destruct (Nat.ltb_spec 1 (List.length argv)); [lia|reflexivity].
  - intros prog arg more E Hne Hlen. subst argv.
    destruct (last_char_nonempty arg Hne Hlen) as [_ L].
    unfold resolve_path. cbn [List.length Nat.ltb Nat.leb nth skipn].
    rewrite L. split; intros H.
    + rewrite H. reflexivity.
    + apply Ascii.eqb_neq in H. rewrite H. reflexivity.
  - intros w'. apply fails_with_return_error; [constructor|reflexivity].
Qed.

(** C8, as the code has it.  The environment [execve] is given never has
    an entry for SCGI and always has GATEWAY_INTERFACE set to CGI/1.1.
    When the header was a table of complete strings, every name of it
    that [setenv] accepts (not empty, no equals sign), other than those
    two, carries the value of the last pair of that name. *)
Theorem C8_effective_environment (malloc_ok : nat -> bool)
    (execve_errno : bytes -> list bytes -> env -> option Z)
    (strerror : Z -> bytes) (argv : list bytes) (w w' : world)
    (p : bytes) (a : list bytes) (e : env) :
  main malloc_ok execve_errno strerror argv w = Replaced p a e w' ->
  getenv (lit "SCGI") e = None /\
  getenv (lit "GATEWAY_INTERFACE") e = Some (lit "CGI/1.1") /\
  forall (ds : bytes) (ss : list bytes) (body : bytes),
    is_length_prefix ds ->
    Forall nul_free ss ->
    digits_value ds = Z.of_nat (List.length (runs ss)) ->
    stdin w = ds ++ COLON :: runs ss ++ COMMA :: body ->
    forall name value,
      valid_name name = true ->
      name <> lit "SCGI" -> name <> lit "GATEWAY_INTERFACE" ->
      last_value name (pair_up ss) = Some value ->
      getenv name e = Some value.
Proof.
  intros H.
  destruct (main_replaced _ _ _ _ _ _ _ _ _ H) as (w1 & B & Ee).
  destruct (build_environment_returns _ _ _ B) as (w0 & R & E1).
  subst e. rewrite E1.
  destruct (markers_set (environ w0)) as (M1 & M2 & M3).
  split; [exact M1|]. split; [exact M2|].
  intros ds ss body Hds Hss Hlen Hin name value Hname N1 N2 Hlast.
  rewrite M3; auto using valid_name_equals_free.
  rewrite (read_scgi_environment_returned malloc_ok ds ss body w w0
             Hds Hss Hlen Hin R).
  apply getenv_apply_pairs_last; assumption.
Qed.

Lemma C8_effective_environment_witness :
  let e := [lit "PATH=/bin"; lit "CONTENT_LENGTH=0";
            lit "SCRIPT_FILENAME=/srv/cgi/a.cgi";
            lit "GATEWAY_INTERFACE=CGI/1.1"] in
  getenv (lit "SCGI") e = None /\
  getenv (lit "GATEWAY_INTERFACE") e = Some (lit "CGI/1.1") /\
  getenv (lit "CONTENT_LENGTH") e = Some (lit "0").
Proof.
  cbv zeta.
  destruct (C8_effective_environment always_memory exec_succeeds
              sample_strerror [lit "scgi_run"] sample_world
              (mkWorld (lit "body") []
                 [lit "PATH=/bin"; lit "CONTENT_LENGTH=0";
                  lit "SCRIPT_FILENAME=/srv/cgi/a.cgi";
                  lit "GATEWAY_INTERFACE=CGI/1.1"])
              (lit "/srv/cgi/a.cgi") [lit "/srv/cgi/a.cgi"]
              [lit "PATH=/bin"; lit "CONTENT_LENGTH=0";
               lit "SCRIPT_FILENAME=/srv/cgi/a.cgi";
               lit "GATEWAY_INTERFACE=CGI/1.1"])
    as (H1 & H2 & H3).
  - vm_compute. reflexivity.
  - split; [exact H1|]. split; [exact H2|].
    apply (H3 (lit "55") sample_strings (lit "body")).
    + split; [discriminate|reflexivity].
    + apply all_nul_freeb_sound. reflexivity.
    + reflexivity.
    + reflexivity.
    + reflexivity.
    + discriminate.
    + discriminate.
    + reflexivity.
Defined.

(** C8, as it is stated, fails: the header pair whose name is A=B has no
    entry in the environment [execve] is given, because [setenv] refuses
    the name. *)
Lemma C8_refused_name_is_absent :
  let e := [lit "GATEWAY_INTERFACE=CGI/1.1"] in
  main always_memory exec_succeeds sample_strerror
    [lit "scgi_run"; lit "/bin/true"] odd_name_world
  = Replaced (lit "/bin/true") [lit "/bin/true"] e (mkWorld [] [] e) /\
  pair_up odd_name_strings = [(lit "A=B", lit "c")] /\
  getenv (lit "A=B") e = None /\
  ~ In (lit "A=B=c") e.
Proof.
  cbv zeta. split; [vm_compute; reflexivity|].
  split; [reflexivity|]. split; [reflexivity|].
  intros [H|[]]. discriminate H.
Qed.

(** ** More on the length prefix *)

(** Digits within the bound are read one turn each; the loop then goes on
    with what follows them. *)
Lemma length_loop_digits (ds : bytes) :
  forall (v : Z) (fuel : nat) (tail : bytes) (w : world),
    forallb isdigit ds = true ->
    0 <= v ->
    digits_from v ds <= MAX_HEADER_LENGTH ->
    stdin w = ds ++ tail ->
    length_loop (List.length ds + fuel) v w
    = length_loop fuel (digits_from v ds) (set_stdin tail w).
Proof.
  induction ds as [|c ds IH]; intros v fuel tail w Hd Hv Hmax Hin.
  - simpl in Hin. simpl. rewrite <- Hin, set_stdin_same. reflexivity.
  - simpl in Hd. apply andb_true_iff in Hd. destruct Hd as [Hc Hd].
    simpl in Hin. cbn [List.length Nat.add length_loop]. unfold bind.
    rewrite (read_char_cons _ _ _ Hin). rewrite Hc.
    rewrite (isdigit_char_to_int _ Hc).
    pose proof (isdigit_code _ Hc) as Hcode.
    rewrite digits_from_cons in *.
    assert (Hle : v * 10 + (code c - 48) <= MAX_HEADER_LENGTH).
    { pose proof (digits_from_grows ds (v * 10 + (code c - 48)) Hd). lia. }
    unfold MAX_HEADER_LENGTH in *.
    rewrite wrap32_small by lia.
    destruct (Z.ltb_spec (v * 10 + (code c - 48)) 0); [lia|].
    destruct (Z.gtb_spec (v * 10 + (code c - 48)) 262144); [lia|].
    cbn [orb].
    rewrite (IH _ fuel tail (set_stdin (ds ++ tail) w)); simpl;
      try reflexivity; try assumption; try lia.
Qed.

(** What the loop has read when it returns: digits, then the colon; the
    value is the one the digits denote from the value it started with,
    and it is within the bound. *)
Lemma length_loop_returns (fuel : nat) :
  forall (v r : Z) (w w' : world),
    0 <= v <= MAX_HEADER_LENGTH ->
    length_loop fuel v w = Returns r w' ->
    exists ds,
      forallb isdigit ds = true /\
      stdin w = ds ++ COLON :: stdin w' /\
      r = digits_from v ds /\
      0 <= r <= MAX_HEADER_LENGTH /\
      w' = set_stdin (stdin w') w.
Proof.
  induction fuel as [|fuel IH]; intros v r w w' Hv H; [discriminate|].
  cbn [length_loop] in H. unfold bind in H.
  destruct (stdin w) as [|c s] eqn:E.
  - rewrite (read_char_nil w E) in H. discriminate.
  - rewrite (read_char_cons c s w E) in H.
    destruct (isdigit c) eqn:Hc.
    + rewrite (isdigit_char_to_int _ Hc) in H.
      pose proof (isdigit_code _ Hc) as Hcode.
      unfold MAX_HEADER_LENGTH in *.
      rewrite wrap32_small in H by lia.
      destruct (Z.ltb_spec (v * 10 + (code c - 48)) 0); [discriminate|].
      destruct (Z.gtb_spec (v * 10 + (code c - 48)) 262144);
        [discriminate|].
      cbn [orb] in H.
      assert (Hv' : 0 <= v * 10 + (code c - 48) <= 262144) by lia.
      destruct (IH _ _ _ _ Hv' H)
        as (ds & Hd & Hs & Hr & Hb & Hw).
      exists (c :: ds). simpl in Hs. repeat split.
      * simpl. rewrite Hc, Hd. reflexivity.
      * simpl. rewrite Hs. reflexivity.
      * rewrite digits_from_cons. exact Hr.
      * apply Hb.
      * apply Hb.
      * rewrite Hw at 1. reflexivity.
    + destruct (Ascii.eqb_spec c COLON) as [Ec|Ec]; [|discriminate].
      inversion H. subst. exists []. simpl. repeat split; try lia.
Qed.

Lemma read_length_returns (r : Z) (w w' : world) :
  read_length w = Returns r w' ->
  exists ds,
    is_length_prefix ds /\
    stdin w = ds ++ COLON :: stdin w' /\
    r = digits_value ds /\
    0 <= r <= MAX_HEADER_LENGTH /\
    w' = set_stdin (stdin w') w.
Proof.
  intros H. unfold read_length, bind in H.
  destruct (stdin w) as [|c s] eqn:E.
  - rewrite (read_char_nil w E) in H. discriminate.
  - rewrite (read_char_cons c s w E) in H.
    destruct (isdigit c) eqn:Hc; [|discriminate].
    unfold ret in H. rewrite (isdigit_char_to_int _ Hc) in H.
    pose proof (isdigit_code _ Hc) as Hcode.
    apply length_loop_returns in H; [|unfold MAX_HEADER_LENGTH; lia].
    destruct H as (ds & Hd & Hs & Hr & Hb & Hw).
    exists (c :: ds). simpl in Hs. repeat split.
    + discriminate.
    + simpl. rewrite Hc, Hd. reflexivity.
    + simpl. rewrite Hs. reflexivity.
    + unfold digits_value. rewrite digits_from_cons.
      replace (0 * 10 + (code c - 48)) with (code c - 48) by lia. exact Hr.
    + apply Hb.
    + apply Hb.
    + rewrite Hw at 1. reflexivity.
Qed.

(** X2.  The length prefix and what [read_length] returns determine each
    other: it returns the length L and leaves [rest] unread exactly when
    the input is a string of one or more decimal digits that denote L,
    L at most [MAX_HEADER_LENGTH], then a colon, then [rest].  Leading
    zeros are accepted. *)
Theorem X2_length_prefix_decoded (length : Z) (rest : bytes) (w : world) :
  read_length w = Returns length (set_stdin rest w) <->
  exists ds,
    is_length_prefix ds /\ digits_value ds = length /\
    length <= MAX_HEADER_LENGTH /\ stdin w = ds ++ COLON :: rest.
Proof.
  split.
  - intros H. destruct (read_length_returns _ _ _ H)
      as (ds & Hds & Hs & Hr & Hb & _).
    exists ds. simpl in Hs. repeat split; try apply Hds; auto. apply Hb.
  - intros (ds & Hds & Hv & Hmax & Hs). subst length.
    apply read_length_accepts; assumption.
Qed.

Lemma X2_length_prefix_decoded_witness :
  read_length (mkWorld (lit "007:abc") [] [])
  = Returns 7 (set_stdin (lit "abc") (mkWorld (lit "007:abc") [] [])).
Proof.
  apply (proj2 (X2_length_prefix_decoded 7 (lit "abc")
                  (mkWorld (lit "007:abc") [] []))).
  exists (lit "007"). split; [split; [discriminate|reflexivity]|].
  split; [reflexivity|]. split; [vm_compute; discriminate|reflexivity].
Defined.

(** ** Failures of the header reader *)

Lemma main_exits_with_reader (malloc_ok : nat -> bool)
    (execve_errno : bytes -> list bytes -> env -> option Z)
    (strerror : Z -> bytes) (argv : list bytes) (w w' : world) (status : Z) :
  read_scgi_environment malloc_ok w = Exits status w' ->
  main malloc_ok execve_errno strerror argv w = Exits status w'.
Proof.
  intros H. unfold main, build_environment, bind. rewrite H. reflexivity.
Qed.

Lemma reader_exits_with_length (malloc_ok : nat -> bool) (w w' : world)
    (status : Z) :
  read_length w = Exits status w' ->
  read_scgi_environment malloc_ok w = Exits status w'.
Proof.
  intros H. unfold read_scgi_environment, bind. rewrite H. reflexivity.
Qed.

Lemma read_length_after_digits (ds tail : bytes) (w : world) :
  is_length_prefix ds ->
  digits_value ds <= MAX_HEADER_LENGTH ->
  stdin w = ds ++ tail ->
  read_length w
  = length_loop (S (List.length tail)) (digits_value ds) (set_stdin tail w).
Proof.
  intros [Hne Hd] Hmax Hin.
  destruct ds as [|c ds]; [congruence|].
  simpl in Hd. apply andb_true_iff in Hd. destruct Hd as [Hc Hd].
  simpl in Hin. unfold read_length, bind.
  rewrite (read_char_cons _ _ _ Hin). rewrite Hc. unfold ret.
  rewrite (isdigit_char_to_int _ Hc).
  pose proof (isdigit_code _ Hc) as Hcode.
  unfold digits_value in *. rewrite digits_from_cons in *.
  replace (0 * 10 + (code c - 48)) with (code c - 48) in * by lia.
  cbn [stdin set_stdin]. rewrite length_app.
  replace (S (List.length ds + List.length tail))
    with (List.length ds + S (List.length tail))%nat by lia.
  rewrite (length_loop_digits ds (code c - 48) _ tail);
    try assumption; try reflexivity; lia.
Qed.

(** X3.  An input that is empty or starts with anything but a decimal
    digit ends the reader, and [main], at once: the stream-truncated
    response for the empty input, otherwise the response that shows the
    first byte in hexadecimal.  Only that byte was read and the
    environment is untouched. *)
Theorem X3_first_byte_must_be_digit (malloc_ok : nat -> bool)
    (execve_errno : bytes -> list bytes -> env -> option Z)
    (strerror : Z -> bytes) (argv : list bytes) (w : world) :
  (stdin w = [] ->
   read_scgi_environment malloc_ok w
   = return_error s500 msg_stream_truncated w /\
   main malloc_ok execve_errno strerror argv w
   = return_error s500 msg_stream_truncated w) /\
  (forall c rest,
     stdin w = c :: rest -> isdigit c = false ->
     read_scgi_environment malloc_ok w
     = return_error s500 (msg_bad_start c) (set_stdin rest w) /\
     main malloc_ok execve_errno strerror argv w
     = return_error s500 (msg_bad_start c) (set_stdin rest w)).
Proof.
  split.
  - intros E.
    assert (H : read_length w = return_error s500 msg_stream_truncated w).
    { unfold read_length, bind. rewrite (read_char_nil w E). reflexivity. }
    split; [|apply main_exits_with_reader];
      apply reader_exits_with_length; exact H.
  - intros c rest E Hc.
    assert (H : read_length w
                = return_error s500 (msg_bad_start c) (set_stdin rest w)).
    { unfold read_length, bind. rewrite (read_char_cons c rest w E).
      rewrite Hc. reflexivity. }
    split; [|apply main_exits_with_reader];
      apply reader_exits_with_length; exact H.
Qed.

Lemma X3_first_byte_must_be_digit_witness :
  read_scgi_environment always_memory (mkWorld [] [] [])
  = return_error s500 msg_stream_truncated (mkWorld [] [] []) /\
  read_scgi_environment always_memory (mkWorld (lit ":3,abc") [] [])
  = return_error s500 (msg_bad_start COLON) (mkWorld (lit "3,abc") [] []).
Proof.
  split.
  - destruct (X3_first_byte_must_be_digit always_memory exec_succeeds
                sample_strerror [] (mkWorld [] [] [])) as [H _].
    apply H. reflexivity.
  - destruct (X3_first_byte_must_be_digit always_memory exec_succeeds
                sample_strerror [] (mkWorld (lit ":3,abc") [] []))
      as [_ H].
    apply (H COLON (lit "3,abc")); reflexivity.
Defined.

(** X4.  After digits whose value is within the bound, the end of the
    stream gives the stream-truncated response, and a byte that is
    neither a digit nor the colon gives the response for an invalid
    character, whose status line reads 500 Invalid SCGI header rather
    than 500 Internal Error.  The input is read up to and including that
    byte. *)
Theorem X4_length_must_end_with_colon (malloc_ok : nat -> bool)
    (ds : bytes) (w : world) :
  is_length_prefix ds ->
  digits_value ds <= MAX_HEADER_LENGTH ->
  (stdin w = ds ->
   read_scgi_environment malloc_ok w
   = return_error s500 msg_stream_truncated (set_stdin [] w)) /\
  (forall c rest,
     stdin w = ds ++ c :: rest -> isdigit c = false -> c <> COLON ->
     read_scgi_environment malloc_ok w
     = return_error s500_invalid (msg_bad_length_char c)
         (set_stdin rest w)).
Proof.
  intros Hds Hmax. split.
  - intros E. apply reader_exits_with_length.
    rewrite (read_length_after_digits ds [] w Hds Hmax)
      by (rewrite app_nil_r; exact E).
    cbn [List.length length_loop]. unfold bind.
    rewrite read_char_nil by reflexivity. reflexivity.
  - intros c rest E Hc Hcolon. apply reader_exits_with_length.
    rewrite (read_length_after_digits ds (c :: rest) w Hds Hmax E).
    cbn [length_loop]. unfold bind.
    rewrite (read_char_cons c rest) by reflexivity.
    rewrite Hc. apply Ascii.eqb_neq in Hcolon. rewrite Hcolon. reflexivity.
Qed.

Lemma X4_length_must_end_with_colon_witness :
  read_scgi_environment always_memory (mkWorld (lit "12") [] [])
  = return_error s500 msg_stream_truncated (mkWorld [] [] []) /\
  read_scgi_environment always_memory (mkWorld (lit "12;abc") [] [])
  = return_error s500_invalid (msg_bad_length_char ";"%char)
      (mkWorld (lit "abc") [] []).
Proof.
  split.
  - destruct (X4_length_must_end_with_colon always_memory (lit "12")
                (mkWorld (lit "12") [] [])) as [H _].
    + split; [discriminate|reflexivity].
    + vm_compute. discriminate.
    + apply H. reflexivity.
  - destruct (X4_length_must_end_with_colon always_memory (lit "12")
                (mkWorld (lit "12;abc") [] [])) as [_ H].
    + split; [discriminate|reflexivity].
    + vm_compute. discriminate.
    + apply (H ";"%char (lit "abc")).
      * reflexivity.
      * reflexivity.
      * discriminate.
Defined.

(** ** What the reader accepts, and when it faults *)

Lemma plain_bind {A B} (m : M A) (f : A -> M B) (w : world) :
  plain (m w) -> (forall a w', plain (f a w')) -> plain (bind m f w).
Proof.
  intros Hm Hf. unfold bind. destruct (m w); simpl in *; auto.
Qed.

Lemma plain_read_char (w : world) : plain (read_char w).
Proof.
  unfold read_char. apply plain_bind; [exact I|].
  intros [|c [|c' r]] w'; exact I.
Qed.

Lemma plain_length_loop (fuel : nat) :
  forall (length : Z) (w : world), plain (length_loop fuel length w).
Proof.
  induction fuel as [|fuel IH]; intros length w; cbn [length_loop].
  - exact I.
  - apply plain_bind; [apply plain_read_char|].
    intros ch w'. destruct (isdigit ch).
    + destruct (_ || _); [exact I|apply IH].
    + destruct (Ascii.eqb ch COLON); exact I.
Qed.

Lemma plain_read_length (w : world) : plain (read_length w).
Proof.
  unfold read_length. apply plain_bind; [apply plain_read_char|].
  intros ch w1. apply plain_bind.
  - destruct (isdigit ch); exact I.
  - intros length w2. apply plain_length_loop.
Qed.

(** A NUL found in a buffer that ends with the comma lies before the
    comma. *)
Lemma split_before_comma (x s t : bytes) :
  x ++ [COMMA] = s ++ NUL :: t ->
  exists t', t = t' ++ [COMMA] /\ x = s ++ NUL :: t'.
Proof.
  intros E. destruct t as [|b t] using rev_ind.
  - apply (app_inj_tail x s COMMA NUL) in E. destruct E as [_ E].
    discriminate E.
  - clear IHt. exists t.
    assert (E' : x ++ [COMMA] = (s ++ NUL :: t) ++ [b])
      by (rewrite E, <- app_assoc; reflexivity).
    apply app_inj_tail in E'. destruct E' as [E1 E2]. subst. auto.
Qed.

(** When the loop returns, what it walked over was an even number of
    complete strings, and it has set their pairs. *)
Lemma walk_loop_returns (fuel : nat) :
  forall (pre q : bytes) (seen : list nat) (w w' : world),
    snd (walk_loop fuel (pre ++ q ++ [COMMA])
           (List.length pre + List.length q) (List.length pre) seen w)
    = Returns tt w' ->
    exists ss,
      q = runs ss /\ Forall nul_free ss /\
      Nat.even (List.length ss) = true /\
      w' = set_environ (apply_pairs (pair_up ss) (environ w)) w.
Proof.
  assert (Hdone : forall (pre q : bytes) (w w' : world),
             ~ (List.length pre < List.length pre + List.length q)%nat ->
             Returns tt w = Returns tt w' ->
             exists ss,
               q = runs ss /\ Forall nul_free ss /\
               Nat.even (List.length ss) = true /\
               w' = set_environ (apply_pairs (pair_up ss) (environ w)) w).
  { intros pre q w w' Hq H. inversion H. subst w'.
    destruct q as [|c q]; [|simpl in Hq; lia].
    exists []. repeat split; auto. simpl. rewrite set_environ_same.
    reflexivity. }
  induction fuel as [|fuel IH]; intros pre q seen w w' H;
    cbn [walk_loop] in H;
    destruct (Nat.ltb_spec (List.length pre)
                (List.length pre + List.length q)) as [Hlt|Hge];
    try (apply (Hdone pre q w w'); [lia|exact H]).
  - discriminate H.
  - set (buf := pre ++ q ++ [COMMA]) in *.
    destruct (strlen_at buf (List.length pre)) as [n|] eqn:E1;
      [|discriminate H].
    assert (E1' := E1). unfold strlen_at, buf in E1'.
    rewrite skipn_length_app in E1'.
    destruct (scan_nul_some _ _ E1') as (s & t & Eq & Hn & Hs).
    destruct (split_before_comma _ _ _ Eq) as (t' & Et & Eq'). subst t q n.
    clear Eq E1'.
    destruct (Nat.leb_spec (List.length pre + List.length (s ++ NUL :: t'))
                (List.length pre + List.length s + 1)) as [Hend|Hin];
      [discriminate H|].
    assert (B2 : buf = (pre ++ s ++ [NUL]) ++ t' ++ [COMMA]).
    { unfold buf. repeat (progress (rewrite <- ?app_assoc; cbn [app])).
      reflexivity. }
    assert (L2 : (List.length pre + List.length s + 1)%nat
                 = List.length (pre ++ s ++ [NUL])).
    { rewrite !length_app. simpl. lia. }
    destruct (strlen_at buf (List.length pre + List.length s + 1))
      as [m|] eqn:E2; [|discriminate H].
    assert (E2' := E2). unfold strlen_at in E2'.
    rewrite B2, L2, skipn_length_app in E2'.
    destruct (scan_nul_some _ _ E2') as (s2 & t2 & Eq2 & Hm & Hs2).
    destruct (split_before_comma _ _ _ Eq2) as (t'' & Et2 & Eq2').
    subst t2 t' m. clear Eq2 E2'.
    assert (S1 : string_at buf (List.length pre) (List.length s) = s).
    { unfold buf. rewrite <- app_assoc. apply string_at_run. }
    assert (S2 : string_at buf (List.length pre + List.length s + 1)
                   (List.length s2) = s2).
    { rewrite B2, L2, <- (app_assoc s2). apply string_at_run. }
    rewrite S1, S2 in H.
    assert (B4 : buf = (pre ++ s ++ NUL :: s2 ++ [NUL]) ++ t'' ++ [COMMA]).
    { unfold buf. repeat (progress (rewrite <- ?app_assoc; cbn [app])).
      reflexivity. }
    assert (L4 : (List.length pre + List.length s + 1 + List.length s2 + 1)%nat
                 = List.length (pre ++ s ++ NUL :: s2 ++ [NUL])).
    { rewrite !length_app. simpl. rewrite length_app. simpl. lia. }
    assert (L5 : (List.length pre
                  + List.length (s ++ NUL :: s2 ++ NUL :: t''))%nat
                 = (List.length (pre ++ s ++ NUL :: s2 ++ [NUL])
                    + List.length t'')%nat).
    { rewrite !length_app. simpl. rewrite !length_app. simpl. lia. }
    rewrite B4, L4, L5 in H.
    destruct (IH _ _ _ _ _ H) as (ss & Eq & Hss & Hev & Hw).
    exists (s :: s2 :: ss). subst t''. repeat split.
    + rewrite !runs_cons. reflexivity.
    + auto.
    + exact Hev.
    + rewrite Hw. reflexivity.
Qed.

Lemma walk_table_returns (payload : bytes) (w w' : world) :
  walk_table (payload ++ [COMMA]) (List.length payload) w = Returns tt w' ->
  exists ss,
    payload = runs ss /\ Forall nul_free ss /\
    Nat.even (List.length ss) = true /\
    w' = set_environ (apply_pairs (pair_up ss) (environ w)) w.
Proof.
  unfold walk_table. destruct (Nat.eqb_spec (List.length payload) 0) as [E|E].
  - intros H. inversion H. subst w'. destruct payload; [|discriminate E].
    exists []. repeat split; auto. simpl. rewrite set_environ_same.
    reflexivity.
  - apply (walk_loop_returns (List.length payload) [] payload [] w w').
Qed.

Lemma walk_table_faults (payload : bytes) (w w' : world) :
  walk_table (payload ++ [COMMA]) (List.length payload) w = Faults w' ->
  payload <> [] /\ last payload NUL <> NUL.
Proof.
  intros H. destruct payload as [|b p] using rev_ind.
  - discriminate H.
  - clear IHp. split; [destruct p; discriminate|].
    rewrite last_last. intros E. subst b.
    rewrite length_app, <- app_assoc in H. cbn [List.length app] in H.
    rewrite Nat.add_1_r in H. unfold walk_table in H. cbn [Nat.eqb] in H.
    apply (proj2 (walk_loop_closed p [COMMA] (S (List.length p)) 0%nat [] w
                    (Forall_nil _)) w').
    exact H.
Qed.

(** The reader gets to the walk only on a netstring. *)
Lemma read_scgi_environment_walked (malloc_ok : nat -> bool) (w : world) :
  match read_scgi_environment malloc_ok w with
  | Returns _ _ | Faults _ =>
      exists ds payload body,
        is_length_prefix ds /\
        digits_value ds = Z.of_nat (List.length payload) /\
        digits_value ds <= MAX_HEADER_LENGTH /\
        malloc_ok (S (List.length payload)) = true /\
        stdin w = ds ++ COLON :: payload ++ COMMA :: body /\
        read_scgi_environment malloc_ok w
        = walk_table (payload ++ [COMMA]) (List.length payload)
            (set_stdin body w)
  | _ => True
  end.
Proof.
  pose proof (plain_read_length w) as HP.
  destruct (read_length w) as [L w1|s w1| | |] eqn:RL; try contradiction.
  - destruct (read_length_returns _ _ _ RL) as (ds & Hds & Hs & HL & Hb & _).
    assert (Hmax : digits_value ds <= MAX_HEADER_LENGTH) by (subst L; apply Hb).
    rewrite (read_scgi_environment_after_length malloc_ok ds (stdin w1) w
               Hds Hmax Hs).
    cbv zeta. rewrite <- HL.
    destruct (malloc_ok (Z.to_nat (L + 1))) eqn:Hmem; [|exact I].
    rewrite length_firstn.
    destruct (Z.eqb_spec
                (Z.of_nat (Nat.min (Z.to_nat (L + 1)) (List.length (stdin w1))))
                (L + 1)) as [Hlen|Hlen]; [|exact I].
    assert (Hnth : nth (Z.to_nat L) (firstn (Z.to_nat (L + 1)) (stdin w1)) NUL
                   = nth (Z.to_nat L) (stdin w1) NUL).
    { rewrite <- (firstn_skipn (Z.to_nat (L + 1)) (stdin w1)) at 2.
      rewrite app_nth1; [reflexivity|]. rewrite length_firstn. lia. }
    rewrite Hnth.
    destruct (Ascii.eqb_spec (nth (Z.to_nat L) (stdin w1) NUL) COMMA)
      as [Hc|Hc]; [|exact I].
    destruct (nth_split (stdin w1) NUL (n:=Z.to_nat L)) as (l1 & l2 & E & El);
      [lia|].
    rewrite Hc in E.
    assert (En : Z.to_nat (L + 1) = List.length (l1 ++ [COMMA])).
    { rewrite length_app. simpl. lia. }
    assert (E' : stdin w1 = (l1 ++ [COMMA]) ++ l2).
    { rewrite E, <- app_assoc. reflexivity. }
    assert (W : walk_table (firstn (Z.to_nat (L + 1)) (stdin w1)) (Z.to_nat L)
                  (set_stdin (skipn (Z.to_nat (L + 1)) (stdin w1)) w)
                = walk_table (l1 ++ [COMMA]) (List.length l1)
                    (set_stdin l2 w)).
    { rewrite E' at 1 2. rewrite En, firstn_length_app, skipn_length_app, El.
      reflexivity. }
    rewrite W.
    assert (Goal : exists ds0 payload body,
               is_length_prefix ds0 /\
               digits_value ds0 = Z.of_nat (List.length payload) /\
               digits_value ds0 <= MAX_HEADER_LENGTH /\
               malloc_ok (S (List.length payload)) = true /\
               stdin w = ds0 ++ COLON :: payload ++ COMMA :: body /\
               walk_table (l1 ++ [COMMA]) (List.length l1) (set_stdin l2 w)
               = walk_table (payload ++ [COMMA]) (List.length payload)
                   (set_stdin body w)).
    { exists ds, l1, l2. repeat split; try apply Hds; auto.
      - lia.
      - replace (S (List.length l1)) with (Z.to_nat (L + 1)) by lia.
        exact Hmem.
      - rewrite Hs, E. reflexivity. }
    destruct (walk_table (l1 ++ [COMMA]) (List.length l1) (set_stdin l2 w));
      auto.
  - rewrite (reader_exits_with_length malloc_ok w w1 s RL). exact I.
  - unfold read_scgi_environment, bind. rewrite RL. exact I.
Qed.

(** X5.  Without a read outside its buffer the reader returns only on a
    well-formed header: if it returns, having read no byte outside the
    buffer, the input was a length prefix within the bound, a colon, a
    payload of exactly that many bytes made of an even number of
    complete NUL-terminated strings, and a comma; what follows the comma
    is left unread, nothing was written, and the environment is the one
    the pairs give when set in order.  (A run that reads outside the
    buffer ends as a fault here; what the program does after such a read
    is not described.) *)
Theorem X5_reader_accepts_only_well_formed (malloc_ok : nat -> bool)
    (w w0 : world) :
  read_scgi_environment malloc_ok w = Returns tt w0 ->
  exists ds ss body,
    is_length_prefix ds /\
    Forall nul_free ss /\
    Nat.even (List.length ss) = true /\
    digits_value ds = Z.of_nat (List.length (runs ss)) /\
    digits_value ds <= MAX_HEADER_LENGTH /\
    stdin w = ds ++ COLON :: runs ss ++ COMMA :: body /\
    w0 = mkWorld body (stdout w) (apply_pairs (pair_up ss) (environ w)).
Proof.
  intros H. pose proof (read_scgi_environment_walked malloc_ok w) as HW.
  rewrite H in HW.
  destruct HW as (ds & payload & body & Hds & Hlen & Hmax & _ & Hs & E).
  symmetry in E.
  destruct (walk_table_returns _ _ _ E) as (ss & Ep & Hss & Hev & Hw).
  subst payload. exists ds, ss, body. repeat split; try apply Hds; auto.
Qed.

Lemma X5_reader_accepts_only_well_formed_witness :
  exists ds ss body,
    is_length_prefix ds /\
    Forall nul_free ss /\
    Nat.even (List.length ss) = true /\
    digits_value ds = Z.of_nat (List.length (runs ss)) /\
    digits_value ds <= MAX_HEADER_LENGTH /\
    stdin sample_world = ds ++ COLON :: runs ss ++ COMMA :: body /\
    mkWorld (lit "body") []
      [lit "PATH=/bin"; lit "CONTENT_LENGTH=0"; lit "SCGI=1";
       lit "SCRIPT_FILENAME=/srv/cgi/a.cgi"]
    = mkWorld body (stdout sample_world)
        (apply_pairs (pair_up ss) (environ sample_world)).
Proof.
  apply (X5_reader_accepts_only_well_formed always_memory sample_world).
  vm_compute. reflexivity.
Defined.

(** X6.  The reader reads outside its buffer only on a table that
    nothing ends: if it faults, the input was a length prefix, a colon,
    a payload of that many bytes and a comma, and the payload is not
    empty and its last byte is not NUL.  On every other input it stays
    inside the buffer. *)
Theorem X6_reader_faults_only_on_open_table (malloc_ok : nat -> bool)
    (w w' : world) :
  read_scgi_environment malloc_ok w = Faults w' ->
  exists ds payload body,
    is_length_prefix ds /\
    digits_value ds = Z.of_nat (List.length payload) /\
    stdin w = ds ++ COLON :: payload ++ COMMA :: body /\
    payload <> [] /\ last payload NUL <> NUL.
Proof.
  intros H. pose proof (read_scgi_environment_walked malloc_ok w) as HW.
  rewrite H in HW.
  destruct HW as (ds & payload & body & Hds & Hlen & _ & _ & Hs & E).
  symmetry in E.
  destruct (walk_table_faults _ _ _ E) as [Hne Hlast].
  exists ds, payload, body. auto.
Qed.

Lemma X6_reader_faults_only_on_open_table_witness :
  exists ds payload body,
    is_length_prefix ds /\
    digits_value ds = Z.of_nat (List.length payload) /\
    stdin (mkWorld (lit "3:" ++ open_payload ++ [COMMA]) [] [])
    = ds ++ COLON :: payload ++ COMMA :: body /\
    payload <> [] /\ last payload NUL <> NUL.
Proof.
  apply (X6_reader_faults_only_on_open_table always_memory
           (mkWorld (lit "3:" ++ open_payload ++ [COMMA]) [] [])
           (mkWorld [] [] [])).
  vm_compute. reflexivity.
Defined.

(** ** From the header to the handler, step by step *)

Lemma build_environment_world (malloc_ok : nat -> bool) (w w1 : world) :
  build_environment malloc_ok w = Returns tt w1 ->
  exists w0,
    read_scgi_environment malloc_ok w = Returns tt w0 /\
    w1 = set_environ
           (setenv (lit "GATEWAY_INTERFACE") (lit "CGI/1.1") true
              (unsetenv (lit "SCGI") (environ w0))) w0.
Proof.
  unfold build_environment, bind.
  destruct (read_scgi_environment malloc_ok w) as [[] w0| | | |];
    try discriminate.
  intros H. inversion H. exists w0. split; reflexivity.
Qed.

Lemma build_environment_faults (malloc_ok : nat -> bool) (w w' : world) :
  build_environment malloc_ok w = Faults w' ->
  read_scgi_environment malloc_ok w = Faults w'.
Proof.
  unfold build_environment, bind.
  destruct (read_scgi_environment malloc_ok w) as [[] w0| | | |];
    try discriminate.
  intros H. exact H.
Qed.

Lemma validate_path_returns (p : bytes) (cd : option bytes) (w w' : world) :
  validate_path p cd w = Returns tt w' ->
  strstr p (lit "../") = None /\
  forall d, cd = Some d -> strncmp d p (strlen d) = 0.
Proof.
  unfold validate_path, bind.
  destruct (strstr p (lit "../")); [discriminate|]. unfold ret.
  intros H. split; [reflexivity|]. intros d E. subst cd.
  destruct (Z.eqb_spec (strncmp d p (strlen d)) 0); [assumption|discriminate].
Qed.

(** The byte [last_char] yields is the last byte of the argument. *)
Lemma last_char_some (arg : bytes) (c : ascii) :
  Z.of_nat (strlen arg) < 2 ^ 63 ->
  last_char arg = Some c -> arg <> [] /\ c = last arg NUL.
Proof.
  intros Hlen H. destruct arg as [|b arg]; [discriminate H|].
  split; [discriminate|].
  destruct (last_char_nonempty (b :: arg)) as [_ E];
    [discriminate|exact Hlen|]. congruence.
Qed.

(** The steps [main] went through when the image was replaced. *)
Lemma main_replaced_steps (malloc_ok : nat -> bool)
    (execve_errno : bytes -> list bytes -> env -> option Z)
    (strerror : Z -> bytes) (argv : list bytes) (w w' : world)
    (p : bytes) (a : list bytes) (e : env) :
  main malloc_ok execve_errno strerror argv w = Replaced p a e w' ->
  exists cd,
    build_environment malloc_ok w = Returns tt w' /\
    resolve_path argv w' = Returns (Some p, cd, a) w' /\
    validate_path p cd w' = Returns tt w' /\
    execve_errno p a e = None /\
    e = environ w'.
Proof.
  intros H. unfold main in H. unfold bind at 1 in H.
  pose proof (not_replaced_build_environment malloc_ok w) as NB.
  destruct (build_environment malloc_ok w) as [[] w1| | | |];
    try discriminate; try contradiction.
  unfold bind at 1 in H.
  pose proof (not_replaced_resolve_path argv w1) as NR.
  destruct (resolve_path argv w1) as [[[sf cd] args] w2| | | |] eqn:R;
    try discriminate; try contradiction.
  pose proof (resolve_path_world _ _ _ _ R). subst w2.
  unfold bind at 1 in H. destruct sf as [q|]; [|discriminate].
  cbn [require_path ret] in H. unfold bind at 1 in H.
  pose proof (not_replaced_validate_path q cd w1) as NV.
  destruct (validate_path q cd w1) as [[] w3| | | |] eqn:V;
    try discriminate; try contradiction.
  pose proof (validate_path_world _ _ _ _ V). subst w3.
  unfold dispatch in H.
  destruct (execve_errno q args (environ w1)) as [errno|] eqn:X.
  - destruct (errno =? ENOENT); unfold return_error in H; discriminate H.
  - inversion H. subst. exists cd. repeat split; assumption.
Qed.

(** Where a fault of [main] comes from. *)
Lemma main_faults (malloc_ok : nat -> bool)
    (execve_errno : bytes -> list bytes -> env -> option Z)
    (strerror : Z -> bytes) (argv : list bytes) (w w' : world) :
  main malloc_ok execve_errno strerror argv w = Faults w' ->
  read_scgi_environment malloc_ok w = Faults w' \/
  ((1 < List.length argv)%nat /\ last_char (nth 1 argv []) = None).
Proof.
  intros H. unfold main in H. unfold bind at 1 in H.
  destruct (build_environment malloc_ok w) as [[] w1| | | |] eqn:B;
    try discriminate.
  - right. unfold bind at 1 in H. unfold resolve_path in H.
    destruct (Nat.ltb_spec 1 (List.length argv)) as [Hlt|Hge].
    + split; [exact Hlt|].
      destruct (last_char (nth 1 argv [])) as [c|]; [|reflexivity].
      exfalso. destruct (Ascii.eqb c SLASH).
      * destruct (getenv _ _) as [q|]; [|discriminate H].
        cbn [require_path] in H.
        unfold ret, bind, validate_path, bind, dispatch in H.
        destruct (strstr q _); [discriminate H|]. unfold ret in H.
        destruct (_ =? 0); [|discriminate H].
        destruct (execve_errno _ _ _) as [errno|]; [|discriminate H].
        destruct (errno =? ENOENT); discriminate H.
      * cbn [require_path] in H.
        unfold ret, bind, validate_path, bind, dispatch in H.
        destruct (strstr _ _); [discriminate H|]. unfold ret in H.
        destruct (execve_errno _ _ _) as [errno|]; [|discriminate H].
        destruct (errno =? ENOENT); discriminate H.
    + exfalso. destruct (getenv _ _) as [q|]; [|discriminate H].
      cbn [require_path] in H.
      unfold ret, bind, validate_path, bind, dispatch in H.
      destruct (strstr q _); [discriminate H|]. unfold ret in H.
      destruct (execve_errno _ _ _) as [errno|]; [|discriminate H].
      destruct (errno =? ENOENT); discriminate H.
  - left. inversion H. subst. apply build_environment_faults. exact B.
Qed.

Lemma main_never_returns (malloc_ok : nat -> bool)
    (execve_errno : bytes -> list bytes -> env -> option Z)
    (strerror : Z -> bytes) (argv : list bytes) (w w' : world) (u : unit) :
  main malloc_ok execve_errno strerror argv w <> Returns u w'.
Proof.
  intros H. unfold main in H. unfold bind at 1 in H.
  destruct (build_environment malloc_ok w) as [[] w1| | | |];
    try discriminate.
  unfold bind at 1 in H.
  destruct (resolve_path argv w1) as [[[sf cd] args] w2| | | |];
    try discriminate.
  unfold bind at 1 in H. destruct sf as [q|]; [|discriminate].
  cbn [require_path ret] in H. unfold bind at 1 in H.
  destruct (validate_path q cd w2) as [[] w3| | | |]; try discriminate.
  unfold dispatch in H.
  destruct (execve_errno q args (environ w3)) as [errno|];
    [|discriminate].
  destruct (errno =? ENOENT); unfold return_error in H; discriminate H.
Qed.

(** X7.  [main] reads outside an object in two situations only: the
    header is a netstring whose payload is not empty and does not end
    with NUL, or there is a first argument and it is empty (or longer
    than any string can be).  On every other input and argument vector
    no byte outside its object is read. *)
Theorem X7_main_faults_only_two_ways (malloc_ok : nat -> bool)
    (execve_errno : bytes -> list bytes -> env -> option Z)
    (strerror : Z -> bytes) (argv : list bytes) (w w' : world) :
  main malloc_ok execve_errno strerror argv w = Faults w' ->
  (exists ds payload body,
     is_length_prefix ds /\
     digits_value ds = Z.of_nat (List.length payload) /\
     stdin w = ds ++ COLON :: payload ++ COMMA :: body /\
     payload <> [] /\ last payload NUL <> NUL) \/
  ((1 < List.length argv)%nat /\
   (nth 1 argv [] = [] \/ 2 ^ 63 <= Z.of_nat (strlen (nth 1 argv [])))).
Proof.
  intros H. destruct (main_faults _ _ _ _ _ _ H) as [R|[Hlen Hlast]].
  - left. pose proof (read_scgi_environment_walked malloc_ok w) as HW.
    rewrite R in HW.
    destruct HW as (ds & payload & body & Hds & Hl & _ & _ & Hs & E).
    symmetry in E. destruct (walk_table_faults _ _ _ E) as [Hne Hnul].
    exists ds, payload, body. auto.
  - right. split; [exact Hlen|].
    destruct (nth 1 argv []) as [|b arg] eqn:E; [left; reflexivity|].
    right. destruct (Z_lt_le_dec (Z.of_nat (strlen (b :: arg))) (2 ^ 63))
      as [Hshort|Hlong]; [|exact Hlong].
    destruct (last_char_nonempty (b :: arg)) as [_ L];
      [discriminate|exact Hshort|]. congruence.
Qed.

Lemma X7_main_faults_only_two_ways_witness :
  (exists ds payload body,
     is_length_prefix ds /\
     digits_value ds = Z.of_nat (List.length payload) /\
     stdin sample_world = ds ++ COLON :: payload ++ COMMA :: body /\
     payload <> [] /\ last payload NUL <> NUL) \/
  ((1 < List.length [lit "scgi_run"; []])%nat /\
   (nth 1 [lit "scgi_run"; []] [] = [] \/
    2 ^ 63 <= Z.of_nat (strlen (nth 1 [lit "scgi_run"; []] [])))).
Proof.
  apply (X7_main_faults_only_two_ways always_memory exec_succeeds
           sample_strerror [lit "scgi_run"; []] sample_world
           sample_handler_world).
  vm_compute. reflexivity.
Defined.

(** X8.  A run of [main] ends in one of three ways and never returns to
    its caller: the image is replaced, which happens only when [execve]
    of that path, argument vector and environment succeeds and nothing
    was written to the output; or the process exits with status 1; or a
    byte outside its object is read, before anything was written. *)
Theorem X8_main_ends_three_ways (malloc_ok : nat -> bool)
    (execve_errno : bytes -> list bytes -> env -> option Z)
    (strerror : Z -> bytes) (argv : list bytes) (w : world) :
  match main malloc_ok execve_errno strerror argv w with
  | Replaced p a e w' => execve_errno p a e = None /\ stdout w' = stdout w
  | Exits status _ => status = 1
  | Faults w' => stdout w' = stdout w
  | Returns _ _ | OutOfFuel => False
  end.
Proof.
  pose proof (writes_main malloc_ok execve_errno strerror argv w) as HW.
  pose proof (main_ends malloc_ok execve_errno strerror argv w) as HE.
  destruct (main malloc_ok execve_errno strerror argv w)
    as [u w'|s w'|p a e w'|w'|] eqn:E; simpl in HW.
  - exact (main_never_returns _ _ _ _ _ _ _ E).
  - apply HW.
  - destruct (main_replaced_steps _ _ _ _ _ _ _ _ _ E)
      as (cd & _ & _ & _ & X & _).
    split; assumption.
  - exact HW.
  - congruence.
Qed.

(** X9.  What [main] executes is safe in the sense of its checks,
    whatever the header held: the path has no [../] in it; without a
    first argument it is the SCRIPT_FILENAME of the environment the
    handler gets, and the handler's only argument; with a first argument
    that ends with a slash it is that SCRIPT_FILENAME and begins with
    the argument; with any other first argument it is that argument, and
    the arguments from it on are the handler's. *)
Theorem X9_dispatch_is_checked (malloc_ok : nat -> bool)
    (execve_errno : bytes -> list bytes -> env -> option Z)
    (strerror : Z -> bytes) (argv : list bytes) (w w' : world)
    (p : bytes) (a : list bytes) (e : env) :
  main malloc_ok execve_errno strerror argv w = Replaced p a e w' ->
  nul_free (nth 1 argv []) ->
  Z.of_nat (strlen (nth 1 argv [])) < 2 ^ 63 ->
  ~ has_substring (lit "../") p /\
  ((List.length argv <= 1)%nat ->
     getenv (lit "SCRIPT_FILENAME") e = Some p /\ a = [p]) /\
  ((1 < List.length argv)%nat -> last (nth 1 argv []) NUL = SLASH ->
     is_prefix (nth 1 argv []) p /\
     getenv (lit "SCRIPT_FILENAME") e = Some p /\ a = [p]) /\
  ((1 < List.length argv)%nat -> last (nth 1 argv []) NUL <> SLASH ->
     p = nth 1 argv [] /\ a = skipn 1 argv).
Proof.
  intros H Hnul Hlen.
  destruct (main_replaced_steps _ _ _ _ _ _ _ _ _ H)
    as (cd & _ & R & V & _ & Ee).
  destruct (validate_path_returns _ _ _ _ V) as [Hdd Hcd]. subst e.
  split.
  { intros Hsub. apply strstr_found in Hsub. congruence. }
  unfold resolve_path in R.
  remember (getenv (lit "SCRIPT_FILENAME") (environ w')) as sf eqn:Esf.
  destruct (Nat.ltb_spec 1 (List.length argv)) as [Hlt|Hge].
  - destruct (last_char (nth 1 argv [])) as [c|] eqn:L; [|discriminate R].
    destruct (last_char_some _ _ Hlen L) as [_ Ec]. subst c.
    split; [intros; lia|].
    destruct (Ascii.eqb_spec (last (nth 1 argv []) NUL) SLASH) as [Es|Es].
    + injection R as Hsf Hd Ha. rewrite Hsf in *. subst cd a.
      split; [|intros _ Hn; congruence].
      intros _ _. split; [|split; reflexivity].
      apply strncmp_prefix; [exact Hnul|]. apply Hcd. reflexivity.
    + injection R as Hp Hd Ha. subst.
      split; [intros _ Hs; congruence|].
      intros _ _. split; reflexivity.
  - injection R as Hsf Hd Ha. rewrite Hsf in *. subst cd a.
    split; [|split; intros; lia].
    intros _. split; reflexivity.
Qed.

Lemma X9_dispatch_is_checked_witness :
  ~ has_substring (lit "../") (lit "/srv/cgi/a.cgi") /\
  is_prefix (lit "/srv/") (lit "/srv/cgi/a.cgi").
Proof.
  destruct (X9_dispatch_is_checked always_memory exec_succeeds
              sample_strerror [lit "scgi_run"; lit "/srv/"] sample_world
              sample_handler_world (lit "/srv/cgi/a.cgi")
              [lit "/srv/cgi/a.cgi"] sample_handler_env)
    as (H1 & _ & H2 & _).
  - vm_compute. reflexivity.
  - apply nul_freeb_sound. reflexivity.
  - vm_compute. reflexivity.
  - split; [exact H1|]. apply H2.
    + simpl. lia.
    + reflexivity.
Defined.

(** When the reader returns on a netstring, the input is left right
    after the comma. *)
Lemma read_scgi_environment_rest (malloc_ok : nat -> bool)
    (ds payload body : bytes) (w w0 : world) :
  is_length_prefix ds ->
  digits_value ds = Z.of_nat (List.length payload) ->
  stdin w = ds ++ COLON :: payload ++ COMMA :: body ->
  read_scgi_environment malloc_ok w = Returns tt w0 ->
  stdin w0 = body.
Proof.
  intros Hds Hlen Hin Hret.
  destruct (Z_le_gt_dec (digits_value ds) MAX_HEADER_LENGTH) as [Hmax|Hmax].
  - destruct (malloc_ok (S (List.length payload))) eqn:Hmem.
    + rewrite (read_scgi_environment_table malloc_ok ds payload body w
                 Hds Hlen Hmax Hmem Hin) in Hret.
      pose proof (walk_table_outcome (payload ++ [COMMA])
                    (List.length payload) (set_stdin body w)) as HW.
      rewrite Hret in HW. apply HW.
    + rewrite (read_scgi_environment_after_length malloc_ok ds _ w
                 Hds Hmax Hin) in Hret.
      cbv zeta in Hret. rewrite Hlen in Hret.
      replace (Z.to_nat (Z.of_nat (List.length payload) + 1))
        with (S (List.length payload)) in Hret by lia.
      rewrite Hmem in Hret. discriminate.
  - destruct (read_length_rejects ds (COLON :: payload ++ COMMA :: body) w
                Hds) as (seen & unread & _ & R); [lia|exact Hin|].
    unfold read_scgi_environment, bind in Hret. rewrite R in Hret.
    discriminate.
Qed.

(** X10.  The variables of the process that the header does not name
    reach the handler as they were: when the image is replaced after a
    header of complete strings, a name without an equals sign that is
    neither SCGI nor GATEWAY_INTERFACE nor the name of a pair has in the
    handler's environment the value it had when [main] started. *)
Theorem X10_other_variables_pass_through (malloc_ok : nat -> bool)
    (execve_errno : bytes -> list bytes -> env -> option Z)
    (strerror : Z -> bytes) (argv : list bytes) (w w' : world)
    (p : bytes) (a : list bytes) (e : env) :
  main malloc_ok execve_errno strerror argv w = Replaced p a e w' ->
  forall (ds : bytes) (ss : list bytes) (body : bytes),
    is_length_prefix ds ->
    Forall nul_free ss ->
    digits_value ds = Z.of_nat (List.length (runs ss)) ->
    stdin w = ds ++ COLON :: runs ss ++ COMMA :: body ->
    forall name,
      contains EQUALS name = false ->
      name <> lit "SCGI" -> name <> lit "GATEWAY_INTERFACE" ->
      last_value name (pair_up ss) = None ->
      getenv name e = getenv name (environ w).
Proof.
  intros H ds ss body Hds Hss Hlen Hin name Hname N1 N2 Hlast.
  destruct (main_replaced _ _ _ _ _ _ _ _ _ H) as (w1 & B & Ee).
  destruct (build_environment_returns _ _ _ B) as (w0 & R & E1).
  subst e. rewrite E1.
  destruct (markers_set (environ w0)) as (_ & _ & M3).
  rewrite M3 by assumption.
  rewrite (read_scgi_environment_returned malloc_ok ds ss body w w0
             Hds Hss Hlen Hin R).
  apply getenv_apply_pairs_none; assumption.
Qed.

Lemma X10_other_variables_pass_through_witness :
  getenv (lit "PATH") sample_handler_env
  = getenv (lit "PATH") (environ sample_world).
Proof.
  apply (X10_other_variables_pass_through always_memory exec_succeeds
           sample_strerror [lit "scgi_run"] sample_world
           sample_handler_world (lit "/srv/cgi/a.cgi")
           [lit "/srv/cgi/a.cgi"] sample_handler_env
           ltac:(vm_compute; reflexivity)
           (lit "55") sample_strings (lit "body")).
  - split; [discriminate|reflexivity].
  - apply all_nul_freeb_sound. reflexivity.
  - reflexivity.
  - reflexivity.
  - reflexivity.
  - discriminate.
  - discriminate.
  - reflexivity.
Defined.

(** X11.  The handler finds the request body where the header ended:
    when the image is replaced, the input is positioned right after the
    comma of the netstring, so every byte that follows the header is
    still to be read. *)
Theorem X11_body_left_for_handler (malloc_ok : nat -> bool)
    (execve_errno : bytes -> list bytes -> env -> option Z)
    (strerror : Z -> bytes) (argv : list bytes) (w w' : world)
    (p : bytes) (a : list bytes) (e : env) :
  main malloc_ok execve_errno strerror argv w = Replaced p a e w' ->
  forall ds payload body,
    is_length_prefix ds ->
    digits_value ds = Z.of_nat (List.length payload) ->
    stdin w = ds ++ COLON :: payload ++ COMMA :: body ->
    stdin w' = body.
Proof.
  intros H ds payload body Hds Hlen Hin.
  destruct (main_replaced_steps _ _ _ _ _ _ _ _ _ H) as (cd & B & _).
  destruct (build_environment_world _ _ _ B) as (w0 & R & Ew).
  subst w'. cbn [stdin set_environ].
  apply (read_scgi_environment_rest malloc_ok ds payload body w w0);
    assumption.
Qed.

Lemma X11_body_left_for_handler_witness :
  stdin sample_handler_world = lit "body".
Proof.
  apply (X11_body_left_for_handler always_memory exec_succeeds
           sample_strerror [lit "scgi_run"] sample_world
           sample_handler_world (lit "/srv/cgi/a.cgi")
           [lit "/srv/cgi/a.cgi"] sample_handler_env
           ltac:(vm_compute; reflexivity)
           (lit "55") (runs sample_strings) (lit "body")).
  - split; [discriminate|reflexivity].
  - reflexivity.
  - reflexivity.
Defined.

(** X12.  When [malloc] gives no memory for an accepted length, the
    reader ends in the response that says so: the payload is left
    unread and the environment is untouched. *)
Theorem X12_no_memory_reported (malloc_ok : nat -> bool)
    (ds rest : bytes) (w : world) :
  is_length_prefix ds ->
  digits_value ds <= MAX_HEADER_LENGTH ->
  stdin w = ds ++ COLON :: rest ->
  malloc_ok (Z.to_nat (digits_value ds + 1)) = false ->
  read_scgi_environment malloc_ok w
  = Exits 1 (mkWorld rest (stdout w ++ response s500 msg_no_memory)
               (environ w)).
Proof.
  intros Hds Hmax Hin Hmem.
  rewrite (read_scgi_environment_after_length malloc_ok ds rest w
             Hds Hmax Hin).
  cbv zeta. rewrite Hmem. reflexivity.
Qed.

Lemma X12_no_memory_reported_witness :
  read_scgi_environment (fun n => (n <=? 4)%nat)
    (mkWorld (lit "7:abcdefg,") [] [])
  = Exits 1 (mkWorld (lit "abcdefg,") (response s500 msg_no_memory) []).
Proof.
  apply (X12_no_memory_reported (fun n => (n <=? 4)%nat) (lit "7")
           (lit "abcdefg,") (mkWorld (lit "7:abcdefg,") [] [])).
  - split; [discriminate|reflexivity].
  - vm_compute. discriminate.
  - reflexivity.
  - reflexivity.
Defined.

(** ** The environment changes in the walk only *)

Lemma keeps_environ_bind {A B} (m : M A) (f : A -> M B) (w : world) :
  keeps_environ w (m w) ->
  (forall a w1, environ w1 = environ w -> keeps_environ w1 (f a w1)) ->
  keeps_environ w (bind m f w).
Proof.
  unfold keeps_environ, bind. intros Hm Hf.
  destruct (m w) as [a w1| | | |]; simpl in *; auto.
  specialize (Hf a w1 Hm). destruct (f a w1); simpl in *; congruence.
Qed.

Lemma keeps_environ_read_char (w : world) : keeps_environ w (read_char w).
Proof.
  unfold read_char. apply keeps_environ_bind; [reflexivity|].
  intros [|c [|c' r]] w1 _; reflexivity.
Qed.

Lemma keeps_environ_length_loop (fuel : nat) :
  forall (length : Z) (w : world),
    keeps_environ w (length_loop fuel length w).
Proof.
  induction fuel as [|fuel IH]; intros length w; cbn [length_loop].
  - exact I.
  - apply keeps_environ_bind; [apply keeps_environ_read_char|].
    intros ch w1 _. destruct (isdigit ch).
    + destruct (_ || _); [reflexivity|apply IH].
    + destruct (Ascii.eqb ch COLON); reflexivity.
Qed.

Lemma keeps_environ_read_length (w : world) :
  keeps_environ w (read_length w).
Proof.
  unfold read_length. apply keeps_environ_bind;
    [apply keeps_environ_read_char|].
  intros ch w1 _. apply keeps_environ_bind.
  - destruct (isdigit ch); reflexivity.
  - intros length w2 _. apply keeps_environ_length_loop.
Qed.

(** X13.  The reader touches the environment in the walk only: when it
    ends in any response other than the one for a corrupt table (a bad
    or oversized length, a truncated stream or header, no memory, a
    missing comma), the environment is exactly the one it started
    with. *)
Theorem X13_environment_kept_on_framing_errors (malloc_ok : nat -> bool)
    (w w' : world) (status : Z) :
  read_scgi_environment malloc_ok w = Exits status w' ->
  stdout w' <> stdout w ++ response s500 msg_corrupt_table ->
  environ w' = environ w.
Proof.
  intros H Hmsg.
  pose proof (keeps_environ_read_length w) as HK.
  pose proof (plain_read_length w) as HP.
  destruct (read_length w) as [L w1|s w1| | |] eqn:RL; try contradiction.
  - destruct (read_length_returns _ _ _ RL) as (ds & Hds & Hs & HL & Hb & _).
    assert (Hmax : digits_value ds <= MAX_HEADER_LENGTH) by (subst L; apply Hb).
    rewrite (read_scgi_environment_after_length malloc_ok ds (stdin w1) w
               Hds Hmax Hs) in H.
    cbv zeta in H.
    destruct (malloc_ok _); [|inversion H; reflexivity].
    destruct (_ =? _); [|inversion H; reflexivity].
    destruct (Ascii.eqb _ _); [|inversion H; reflexivity].
    match type of H with
    | walk_table ?h ?l ?x = _ =>
        pose proof (walk_table_outcome h l x) as HW
    end.
    rewrite H in HW. destruct HW as (_ & _ & Hout).
    cbn [stdout set_stdin] in Hout. contradiction.
  - rewrite (reader_exits_with_length malloc_ok w w1 s RL) in H.
    inversion H. subst. exact HK.
  - unfold read_scgi_environment, bind in H. rewrite RL in H. discriminate.
Qed.

Lemma X13_environment_kept_on_framing_errors_witness :
  environ (mkWorld (lit "ef") (response s500 msg_missing_comma)
             [lit "PATH=/bin"])
  = environ (mkWorld (lit "3:abcdef") [] [lit "PATH=/bin"]).
Proof.
  apply (X13_environment_kept_on_framing_errors always_memory
           (mkWorld (lit "3:abcdef") [] [lit "PATH=/bin"])
           (mkWorld (lit "ef") (response s500 msg_missing_comma)
              [lit "PATH=/bin"]) 1).
  - vm_compute. reflexivity.
  - vm_compute. discriminate.
Defined.

(** X14.  The handler's path has to come from somewhere: when neither
    the header nor the environment [main] started with names
    SCRIPT_FILENAME, and the command line gives no path (no first
    argument, or one that ends with a slash and so only names the
    directory to check against), [main] ends in the response for a
    missing SCRIPT_FILENAME, a ConfigError, after the header was read. *)
Theorem X14_missing_script_filename (malloc_ok : nat -> bool)
    (execve_errno : bytes -> list bytes -> env -> option Z)
    (strerror : Z -> bytes) (argv : list bytes)
    (ds : bytes) (ss : list bytes) (body : bytes) (w : world) :
  is_length_prefix ds ->
  Forall nul_free ss ->
  Nat.even (List.length ss) = true ->
  digits_value ds = Z.of_nat (List.length (runs ss)) ->
  digits_value ds <= MAX_HEADER_LENGTH ->
  malloc_ok (S (List.length (runs ss))) = true ->
  stdin w = ds ++ COLON :: runs ss ++ COMMA :: body ->
  last_value (lit "SCRIPT_FILENAME") (pair_up ss) = None ->
  getenv (lit "SCRIPT_FILENAME") (environ w) = None ->
  ((List.length argv <= 1)%nat \/
   (exists prog arg more,
      argv = prog :: arg :: more /\ arg <> [] /\
      Z.of_nat (strlen arg) < 2 ^ 63 /\ last arg NUL = SLASH)) ->
  exists w1,
    main malloc_ok execve_errno strerror argv w
    = return_error s500 msg_missing_script w1 /\
    stdin w1 = body /\ stdout w1 = stdout w /\
    fails_with ConfigError w (main malloc_ok execve_errno strerror argv w).
Proof.
  intros Hds Hss Hev Hlen Hmax Hmem Hin Hlast Hamb Hargv.
  pose proof (read_scgi_environment_runs malloc_ok ds ss body w
                Hds Hss Hlen Hmax Hmem Hin) as HR.
  cbv zeta in HR. rewrite Hev in HR.
  set (e0 := apply_pairs (pair_up ss) (environ w)) in *.
  set (w1 := mkWorld body (stdout w)
               (setenv (lit "GATEWAY_INTERFACE") (lit "CGI/1.1") true
                  (unsetenv (lit "SCGI") e0))).
  assert (HB : build_environment malloc_ok w = Returns tt w1).
  { unfold build_environment, bind. rewrite HR. reflexivity. }
  assert (HG : getenv (lit "SCRIPT_FILENAME") (environ w1) = None).
  { destruct (markers_set e0) as (_ & _ & M3).
    unfold w1. cbn [environ]. rewrite M3; try reflexivity; try discriminate.
    unfold e0. rewrite getenv_apply_pairs_none; auto. }
  assert (HP : resolve_path argv w1 = Returns (None, None, []) w1
               \/ exists arg, resolve_path argv w1
                              = Returns (None, Some arg, []) w1).
  { destruct (resolve_path_cases argv w1) as (R1 & R2 & _).
    cbv zeta in R1, R2. rewrite HG in R1, R2.
    destruct Hargv as [Hshort|(prog & arg & more & Ea & Hne & Hl & Hs)].
    - left. apply R1, Hshort.
    - right. exists arg.
      destruct (R2 prog arg more Ea Hne Hl) as [R _]. apply R, Hs. }
  assert (HM : main malloc_ok execve_errno strerror argv w
               = return_error s500 msg_missing_script w1).
  { unfold main. unfold bind at 1. rewrite HB. unfold bind at 1.
    destruct HP as [HP|[arg HP]]; rewrite HP; reflexivity. }
  exists w1. split; [exact HM|]. split; [reflexivity|].
  split; [reflexivity|]. rewrite HM.
  apply fails_with_return_error; [constructor|reflexivity].
Qed.

Lemma X14_missing_script_filename_witness :
  exists w1,
    main always_memory exec_succeeds sample_strerror
      [lit "scgi_run"; lit "/srv/"]
      (mkWorld (lit "4:" ++ runs [lit "a"; lit "b"] ++ COMMA :: lit "body")
         [] [])
    = return_error s500 msg_missing_script w1 /\
    stdin w1 = lit "body" /\ stdout w1 = [] /\
    fails_with ConfigError
      (mkWorld (lit "4:" ++ runs [lit "a"; lit "b"] ++ COMMA :: lit "body")
         [] [])
      (main always_memory exec_succeeds sample_strerror
         [lit "scgi_run"; lit "/srv/"]
         (mkWorld (lit "4:" ++ runs [lit "a"; lit "b"] ++ COMMA :: lit "body")
            [] [])).
Proof.
  apply (X14_missing_script_filename always_memory exec_succeeds
           sample_strerror [lit "scgi_run"; lit "/srv/"] (lit "4")
           [lit "a"; lit "b"] (lit "body")
           (mkWorld (lit "4:" ++ runs [lit "a"; lit "b"]
                       ++ COMMA :: lit "body") [] [])).
  - split; [discriminate|reflexivity].
  - apply all_nul_freeb_sound. reflexivity.
  - reflexivity.
  - reflexivity.
  - vm_compute. discriminate.
  - reflexivity.
  - reflexivity.
  - reflexivity.
  - reflexivity.
  - right. exists (lit "scgi_run"), (lit "/srv/"), [].
    split; [reflexivity|]. split; [discriminate|].
    split; [vm_compute; reflexivity|reflexivity].
Defined.

(** ** The reader when the block read may return short *)

(** What [read_scgi_environment_partial] does after a length prefix it
    accepts. *)
Lemma read_scgi_environment_partial_after_length (malloc_ok : nat -> bool)
    (read_count : nat -> bytes -> nat) (ds rest : bytes) (w : world) :
  is_length_prefix ds ->
  digits_value ds <= MAX_HEADER_LENGTH ->
  stdin w = ds ++ COLON :: rest ->
  read_scgi_environment_partial malloc_ok read_count w =
    let length := digits_value ds in
    let n := Z.to_nat (length + 1) in
    if malloc_ok n then
      let k := Nat.min n (read_count n rest) in
      let headers := firstn k rest in
      let w2 := set_stdin (skipn k rest) w in
      if Z.of_nat (List.length headers) =? length + 1 then
        if Ascii.eqb (nth (Z.to_nat length) headers NUL) COMMA
        then walk_table headers (Z.to_nat length) w2
        else return_error s500 msg_missing_comma w2
      else return_error s500 msg_header_truncated w2
    else return_error s500 msg_no_memory (set_stdin rest w).
Proof.
  intros Hds Hmax Hin. unfold read_scgi_environment_partial, bind.
  rewrite (read_length_accepts ds rest w Hds Hmax Hin).
  cbv zeta. destruct (malloc_ok (Z.to_nat (digits_value ds + 1)));
    [|reflexivity].
  unfold ret, sys_read_partial. cbn [stdin set_stdin stdout environ].
  destruct (Z.of_nat _ =? digits_value ds + 1); [|reflexivity].
  destruct (Ascii.eqb _ COMMA); reflexivity.
Qed.

(** A read that is given all it asks for: the run is the one of
    [read_scgi_environment]. *)
Lemma read_scgi_environment_partial_whole (malloc_ok : nat -> bool)
    (read_count : nat -> bytes -> nat) (ds rest : bytes) (w : world) :
  is_length_prefix ds ->
  digits_value ds <= MAX_HEADER_LENGTH ->
  stdin w = ds ++ COLON :: rest ->
  (Z.to_nat (digits_value ds + 1)
   <= read_count (Z.to_nat (digits_value ds + 1)) rest)%nat ->
  read_scgi_environment_partial malloc_ok read_count w
  = read_scgi_environment malloc_ok w.
Proof.
  intros Hds Hmax Hin Hall.
  rewrite (read_scgi_environment_partial_after_length malloc_ok read_count
             ds rest w Hds Hmax Hin).
  rewrite (read_scgi_environment_after_length malloc_ok ds rest w
             Hds Hmax Hin).
  cbv zeta. rewrite (Nat.min_l _ _ Hall). reflexivity.
Qed.


(** C1, as the code has it.  For an input [<L>:<payload>,] whose payload
    is L bytes, L at most [MAX_HEADER_LENGTH], made of an even number of
    complete NUL-terminated strings, when [malloc] gives the memory for
    the header and the block read is given all L+1 bytes, the reader
    returns with the rest of the input unread and nothing written; the
    environment is the one obtained by [setenv] on each (name, value)
    pair in input order.  In it every name that [setenv] accepts (not
    empty, no equals sign) carries the value of the last pair of that
    name. *)
Theorem C1_well_formed_header_parsed (malloc_ok : nat -> bool)
    (read_count : nat -> bytes -> nat)
    (ds : bytes) (ss : list bytes) (body : bytes) (w : world) :
  is_length_prefix ds ->
  Forall nul_free ss ->
  Nat.even (List.length ss) = true ->
  digits_value ds = Z.of_nat (List.length (runs ss)) ->
  digits_value ds <= MAX_HEADER_LENGTH ->
  malloc_ok (S (List.length (runs ss))) = true ->
  (S (List.length (runs ss))
   <= read_count (S (List.length (runs ss))) (runs ss ++ COMMA :: body))%nat ->
  stdin w = ds ++ COLON :: runs ss ++ COMMA :: body ->
  read_scgi_environment_partial malloc_ok read_count w
  = Returns tt
      (mkWorld body (stdout w) (apply_pairs (pair_up ss) (environ w))) /\
  forall name value,
    valid_name name = true ->
    last_value name (pair_up ss) = Some value ->
    getenv name (apply_pairs (pair_up ss) (environ w)) = Some value.
Proof.
  intros Hds Hss Heven Hlen Hmax Hmem Hall Hin. split.
  - rewrite (read_scgi_environment_partial_whole malloc_ok read_count ds
               (runs ss ++ COMMA :: body) w Hds Hmax Hin).
    + rewrite (read_scgi_environment_runs malloc_ok ds ss body w
                 Hds Hss Hlen Hmax Hmem Hin).
      cbv zeta. rewrite Heven. reflexivity.
    + rewrite Hlen.
      replace (Z.to_nat (Z.of_nat (List.length (runs ss)) + 1))
        with (S (List.length (runs ss))) by lia.
      exact Hall.
  - intros name value Hname Hlast.
    apply getenv_apply_pairs_last; assumption.
Qed.

Lemma C1_well_formed_header_parsed_witness :
  read_scgi_environment_partial always_memory delivers_all sample_world
  = Returns tt
      (mkWorld (lit "body") []
         (apply_pairs (pair_up sample_strings) [lit "PATH=/bin"])) /\
  forall name value,
    valid_name name = true ->
    last_value name (pair_up sample_strings) = Some value ->
    getenv name (apply_pairs (pair_up sample_strings) [lit "PATH=/bin"])
    = Some value.
Proof.
  apply (C1_well_formed_header_parsed always_memory delivers_all (lit "55")
           sample_strings (lit "body") sample_world).
  - split; [discriminate|reflexivity].
  - apply all_nul_freeb_sound. reflexivity.
  - reflexivity.
  - reflexivity.
  - vm_compute. discriminate.
  - reflexivity.
  - unfold delivers_all. lia.
  - reflexivity.
Defined.

(** C1, as it is stated, fails four times.  A table of 262145 bytes is
    of the form the claim describes, and the reader rejects it for its
    length.  A table whose name holds an equals sign is of that form too,
    and the reader returns, but [setenv] refuses the name: the
    environment has no entry for the pair.  The request of the sample is
    of that form, and the reader answers that the header is truncated
    when the block read is given two bytes of it, and that there is no
    memory when [malloc] gives none. *)
Lemma C1_unrestricted_claim_fails :
  (is_length_prefix (lit "262145") /\
   Forall nul_free oversized_strings /\
   Nat.even (List.length oversized_strings) = true /\
   digits_value (lit "262145")
   = Z.of_nat (List.length (runs oversized_strings)) /\
   stdin oversized_world
   = lit "262145" ++ COLON :: runs oversized_strings ++ COMMA :: [] /\
   exists w', read_scgi_environment_partial always_memory delivers_all
                oversized_world
              = Exits 1 w') /\
  (is_length_prefix (lit "6") /\
   Forall nul_free odd_name_strings /\
   Nat.even (List.length odd_name_strings) = true /\
   digits_value (lit "6") = Z.of_nat (List.length (runs odd_name_strings)) /\
   stdin odd_name_world
   = lit "6" ++ COLON :: runs odd_name_strings ++ COMMA :: [] /\
   read_scgi_environment_partial always_memory delivers_all odd_name_world
   = Returns tt (mkWorld [] [] []) /\
   last_value (lit "A=B") (pair_up odd_name_strings) = Some (lit "c") /\
   getenv (lit "A=B") [] = None) /\
  (is_length_prefix (lit "55") /\
   Forall nul_free sample_strings /\
   Nat.even (List.length sample_strings) = true /\
   digits_value (lit "55") = Z.of_nat (List.length (runs sample_strings)) /\
   stdin sample_world
   = lit "55" ++ COLON :: runs sample_strings ++ COMMA :: lit "body" /\
   read_scgi_environment_partial always_memory delivers_two sample_world
   = return_error s500 msg_header_truncated
       (set_stdin (skipn 2 (runs sample_strings ++ COMMA :: lit "body"))
          sample_world) /\
   read_scgi_environment_partial never_memory delivers_all sample_world
   = return_error s500 msg_no_memory
       (set_stdin (runs sample_strings ++ COMMA :: lit "body")
          sample_world)).
Proof.
  split; [|split].
  - split; [split; [discriminate|reflexivity]|].
    split.
    { repeat constructor.
      - apply nul_freeb_sound. reflexivity.
      - apply nul_free_repeat. discriminate. }
    split; [reflexivity|].
    split.
    { vm_compute. reflexivity. }
    split; [reflexivity|].
    destruct (read_length_rejects (lit "262145")
                (COLON :: runs oversized_strings ++ [COMMA]) oversized_world)
      as (seen & unread & E & R).
    + split; [discriminate|reflexivity].
    + vm_compute. reflexivity.
    + reflexivity.
    + eexists. unfold read_scgi_environment_partial, bind. rewrite R.
      reflexivity.
  - split; [split; [discriminate|reflexivity]|].
    split; [apply all_nul_freeb_sound; reflexivity|].
    repeat split.
  - split; [split; [discriminate|reflexivity]|].
    split; [apply all_nul_freeb_sound; reflexivity|].
    repeat split.
Qed.

(** C7, as the code has it.  Once the colon is read (the length L was
    accepted), the reader asks [malloc] for L+1 bytes and, without them,
    ends in the response for no memory with nothing more read.  With
    them it issues one read of L+1 bytes and consumes what that read is
    given, on every path.  When that is fewer than L+1 bytes, because
    fewer are left or because the read returns short, it ends in the
    response for a truncated header; when it is all L+1, it ends in the
    response for a missing comma if the byte at offset L is not a comma.
    Both are ProtocolErrors. *)
Theorem C7_header_block_read (malloc_ok : nat -> bool)
    (read_count : nat -> bytes -> nat) (ds rest : bytes) (w : world) :
  is_length_prefix ds ->
  digits_value ds <= MAX_HEADER_LENGTH ->
  stdin w = ds ++ COLON :: rest ->
  let L := digits_value ds in
  let n := Z.to_nat (L + 1) in
  let k := Nat.min n (read_count n rest) in
  let o := read_scgi_environment_partial malloc_ok read_count w in
  (malloc_ok n = false ->
     o = return_error s500 msg_no_memory (set_stdin rest w)) /\
  (malloc_ok n = true ->
     (exists w', final_world o = Some w' /\ stdin w' = skipn k rest) /\
     ((List.length rest < n \/ read_count n rest < n)%nat ->
        o = return_error s500 msg_header_truncated
              (set_stdin (skipn k rest) w) /\
        fails_with ProtocolError w o) /\
     ((n <= List.length rest /\ n <= read_count n rest)%nat ->
        k = n /\
        (nth (Z.to_nat L) rest NUL <> COMMA ->
           o = return_error s500 msg_missing_comma
                 (set_stdin (skipn n rest) w) /\
           fails_with ProtocolError w o))).
Proof.
  intros Hds Hmax Hin. cbv zeta.
  assert (HL : 0 <= digits_value ds) by (apply digits_value_nonneg, Hds).
  remember (read_scgi_environment_partial malloc_ok read_count w) as o eqn:Ho.
  rewrite (read_scgi_environment_partial_after_length malloc_ok read_count
             ds rest w Hds Hmax Hin) in Ho.
  cbv zeta in Ho.
  set (L := digits_value ds) in *.
  set (n := Z.to_nat (L + 1)) in *.
  set (k := Nat.min n (read_count n rest)) in *.
  split.
  - intros Hmem. rewrite Hmem in Ho. exact Ho.
  - intros Hmem. rewrite Hmem in Ho. rewrite length_firstn in Ho.
    split; [|split].
    + destruct (Z.of_nat (Nat.min k (List.length rest)) =? L + 1).
      * destruct (Ascii.eqb _ COMMA).
        -- pose proof (walk_table_outcome (firstn k rest) (Z.to_nat L)
                         (set_stdin (skipn k rest) w)) as Hw.
           rewrite <- Ho in Hw.
           destruct o as [a w'|s w'|? ? ? w'|w'|]; try contradiction;
             exists w'; (split; [reflexivity|]); simpl in Hw; tauto.
        -- rewrite Ho. eexists. split; reflexivity.
      * rewrite Ho. eexists. split; reflexivity.
    + intros Hshort.
      destruct (Z.eqb_spec (Z.of_nat (Nat.min k (List.length rest))) (L + 1));
        [subst k; lia|].
      split; [exact Ho|]. rewrite Ho.
      apply fails_with_return_error; [constructor|reflexivity].
    + intros [Hleft Hgiven].
      assert (Hk : k = n) by (subst k; lia).
      split; [exact Hk|]. intros Hcomma.
      rewrite Hk in Ho.
      destruct (Z.eqb_spec (Z.of_nat (Nat.min n (List.length rest))) (L + 1));
        [|lia].
      assert (Hnth : nth (Z.to_nat L) (firstn n rest) NUL
                     = nth (Z.to_nat L) rest NUL).
      { rewrite <- (firstn_skipn n rest) at 2.
        rewrite app_nth1; [reflexivity|]. rewrite length_firstn. lia. }
      rewrite Hnth in Ho. apply Ascii.eqb_neq in Hcomma.
      rewrite Hcomma in Ho.
      split; [exact Ho|]. rewrite Ho.
      apply fails_with_return_error; [constructor|reflexivity].
Qed.

Lemma C7_header_block_read_witness :
  read_scgi_environment_partial always_memory delivers_all
    (mkWorld (lit "3:ab") [] [])
  = return_error s500 msg_header_truncated (mkWorld [] [] []) /\
  read_scgi_environment_partial always_memory delivers_all
    (mkWorld (lit "3:abcdef") [] [])
  = return_error s500 msg_missing_comma (mkWorld (lit "ef") [] []).
Proof.
  split.
  - destruct (C7_header_block_read always_memory delivers_all (lit "3")
                (lit "ab") (mkWorld (lit "3:ab") [] [])) as [_ H].
    + split; [discriminate|reflexivity].
    + vm_compute. discriminate.
    + reflexivity.
    + destruct (H eq_refl) as (_ & H2 & _).
      apply H2. left. vm_compute. lia.
  - destruct (C7_header_block_read always_memory delivers_all (lit "3")
                (lit "abcdef") (mkWorld (lit "3:abcdef") [] [])) as [_ H].
    + split; [discriminate|reflexivity].
    + vm_compute. discriminate.
    + reflexivity.
    + destruct (H eq_refl) as (_ & _ & H3).
      destruct H3 as [_ H3]; [vm_compute; lia|].
      apply H3. vm_compute. discriminate.
Defined.

(** C7, as it is stated, fails twice on the input 3:abc, where the four
    bytes L+1 are there after the colon.  Without memory for the header
    the reader ends in the response for no memory, which is none of the
    ProtocolErrors, and has consumed none of the four bytes.  With
    memory, when the block read is given two bytes, the reader takes
    those two and ends in the response for a truncated header. *)
Lemma C7_unconditional_claim_fails :
  is_length_prefix (lit "3") /\
  digits_value (lit "3") + 1 = Z.of_nat (List.length (lit "abc,")) /\
  read_scgi_environment_partial never_memory delivers_all
    (mkWorld (lit "3:abc,") [] [])
  = Exits 1 (mkWorld (lit "abc,") (response s500 msg_no_memory) []) /\
  ~ reported ProtocolError s500 msg_no_memory /\
  read_scgi_environment_partial always_memory delivers_two
    (mkWorld (lit "3:abc,") [] [])
  = Exits 1 (mkWorld (lit "c,") (response s500 msg_header_truncated) []).
Proof.
  split; [split; [discriminate|reflexivity]|].
  split; [reflexivity|]. split; [reflexivity|].
  split; [|reflexivity].
  intros H. inversion H.
Qed.

(** ** [main] when the block read may return short *)

Lemma read_scgi_environment_partial_all (malloc_ok : nat -> bool)
    (read_count : nat -> bytes -> nat) (w : world) :
  (forall n left, (n <= read_count n left)%nat) ->
  read_scgi_environment_partial malloc_ok read_count w
  = read_scgi_environment malloc_ok w.
Proof.
  intros Hall.
  destruct (read_length w) as [L w1|s w1|? ? ? ?|w1|] eqn:RL;
    try (unfold read_scgi_environment_partial, read_scgi_environment, bind;
         rewrite RL; reflexivity).
  destruct (read_length_returns _ _ _ RL) as (ds & Hds & Hs & HL & Hb & _).
  assert (Hmax : digits_value ds <= MAX_HEADER_LENGTH) by (subst L; apply Hb).
  apply (read_scgi_environment_partial_whole malloc_ok read_count ds
           (stdin w1) w Hds Hmax Hs). apply Hall.
Qed.

(** [main] is [main_partial] on a system whose reads are given all they
    ask for. *)
Lemma main_partial_all (malloc_ok : nat -> bool)
    (execve_errno : bytes -> list bytes -> env -> option Z)
    (strerror : Z -> bytes) (read_count : nat -> bytes -> nat)
    (argv : list bytes) (w : world) :
  (forall n left, (n <= read_count n left)%nat) ->
  main_partial malloc_ok execve_errno strerror read_count argv w
  = main malloc_ok execve_errno strerror argv w.
Proof.
  intros Hall. unfold main_partial, build_environment_partial, main,
    build_environment.
  unfold bind at 1 3. unfold bind at 1 5.
  rewrite (read_scgi_environment_partial_all malloc_ok read_count w Hall).
  reflexivity.
Qed.




(** ** The first argument, read where it lies *)

Lemma displacement_last_index (arg : bytes) :
  Z.of_nat (strlen arg) < 2 ^ 63 ->
  displacement (last_index arg) = Z.of_nat (strlen arg) - 1.
Proof.
  intros Hlen. destruct arg as [|b arg]; [reflexivity|].
  apply last_char_nonempty; [discriminate|exact Hlen].
Qed.

(** In the block the read finds the last byte of a first argument that
    has one, and in front of an empty one the NUL that ends [argv[0]]. *)
Lemma last_char_in_block_found (prog arg : bytes) (more : list bytes) :
  Z.of_nat (strlen arg) < 2 ^ 63 ->
  last_char_in_block (prog :: arg :: more) = Some (last arg NUL).
Proof.
  intros Hlen. unfold last_char_in_block, block_char_at, argument_offset,
    argument_block.
  cbn [nth firstn]. rewrite (displacement_last_index arg Hlen).
  rewrite !runs_cons. change (runs []) with (@nil ascii).
  unfold strlen. rewrite !length_app. cbn [List.length].
  rewrite !length_app. cbn [List.length].
  replace (Z.of_nat (List.length prog + 1) + (Z.of_nat (List.length arg) - 1))
    with (Z.of_nat (List.length prog + List.length arg)) by lia.
  destruct (Z.leb_spec 0 (Z.of_nat (List.length prog + List.length arg)));
    [|lia].
  destruct (Z.ltb_spec (Z.of_nat (List.length prog + List.length arg))
              (Z.of_nat (List.length prog
                         + S (List.length arg
                              + S (List.length (runs more))))));
    [|lia].
  cbn [andb]. rewrite Nat2Z.id. f_equal.
  destruct arg as [|b arg] using rev_ind.
  - cbn [List.length app last]. rewrite Nat.add_0_r. apply nth_length_app.
  - clear IHarg. rewrite last_last.
    replace (List.length prog + List.length (arg ++ [b]))%nat
      with (List.length (prog ++ NUL :: arg))
      by (rewrite !length_app; simpl; lia).
    replace (prog ++ NUL :: (arg ++ [b]) ++ NUL :: runs more)
      with ((prog ++ NUL :: arg) ++ b :: NUL :: runs more)
      by (repeat (progress (rewrite <- ?app_assoc; cbn [app])); reflexivity).
    apply nth_length_app.
Qed.

(** C5.  Without a first argument the handler's path is the
    SCRIPT_FILENAME of the environment, which the header has set.  A
    first argument whose last byte is a slash becomes the directory the
    path is checked against, and the path is still that SCRIPT_FILENAME.
    Any other first argument, the empty one included (the byte read in
    front of it is the NUL that ends [argv[0]], not a slash), becomes
    the path, and the arguments from it on are the handler's.  In the
    first two cases the handler's only argument is its path.  When no
    path has come out of this, the run ends in the response for a
    missing SCRIPT_FILENAME, a ConfigError.  For every first argument
    that is not empty this is [resolve_path], the resolution [main]
    does. *)
Theorem C5_path_resolution (argv : list bytes) (w : world) :
  let from_env := getenv (lit "SCRIPT_FILENAME") (environ w) in
  let new_argv := match from_env with Some s => [s] | None => [] end in
  ((List.length argv <= 1)%nat ->
     resolve_path_in_block argv w = Returns (from_env, None, new_argv) w /\
     resolve_path argv w = Returns (from_env, None, new_argv) w) /\
  (forall prog arg more,
     argv = prog :: arg :: more ->
     Z.of_nat (strlen arg) < 2 ^ 63 ->
     (last arg NUL = SLASH ->
        resolve_path_in_block argv w
        = Returns (from_env, Some arg, new_argv) w) /\
     (last arg NUL <> SLASH ->
        resolve_path_in_block argv w
        = Returns (Some arg, None, arg :: more) w) /\
     (arg <> [] -> resolve_path argv w = resolve_path_in_block argv w)) /\
  (forall w', fails_with ConfigError w' (require_path None w')) /\
  (forall p w', require_path (Some p) w' = Returns p w').
Proof.
  cbv zeta. split; [|split; [|split]].
  - intros H. unfold resolve_path_in_block, resolve_path.
    destruct (Nat.ltb_spec 1 (List.length argv)); [lia|]. split; reflexivity.
  - intros prog arg more E Hlen. subst argv.
    pose proof (last_char_in_block_found prog arg more Hlen) as L.
    split; [|split].
    + intros H. unfold resolve_path_in_block.
      cbn [List.length Nat.ltb Nat.leb nth]. rewrite L, H. reflexivity.
    + intros H. unfold resolve_path_in_block.
      cbn [List.length Nat.ltb Nat.leb nth skipn]. rewrite L.
      apply Ascii.eqb_neq in H. rewrite H. reflexivity.
    + intros Hne. destruct (last_char_nonempty arg Hne Hlen) as [_ L'].
      unfold resolve_path_in_block, resolve_path.
      cbn [List.length Nat.ltb Nat.leb nth]. rewrite L, L'. reflexivity.
  - intros w'. apply fails_with_return_error; [constructor|reflexivity].
  - intros p w'. reflexivity.
Qed.

Lemma C5_path_resolution_witness :
  resolve_path_in_block [lit "scgi_run"; lit "/srv/"] sample_handler_world
  = Returns (Some (lit "/srv/cgi/a.cgi"), Some (lit "/srv/"),
             [lit "/srv/cgi/a.cgi"]) sample_handler_world /\
  resolve_path_in_block [lit "scgi_run"; lit "/bin/date"; lit "-u"]
    sample_handler_world
  = Returns (Some (lit "/bin/date"), None, [lit "/bin/date"; lit "-u"])
      sample_handler_world /\
  resolve_path_in_block [lit "scgi_run"; []] sample_handler_world
  = Returns (Some [], None, [[]]) sample_handler_world /\
  resolve_path [lit "scgi_run"] sample_handler_world
  = Returns (Some (lit "/srv/cgi/a.cgi"), None, [lit "/srv/cgi/a.cgi"])
      sample_handler_world.
Proof.
  split; [|split; [|split]].
  - destruct (C5_path_resolution [lit "scgi_run"; lit "/srv/"]
                sample_handler_world) as (_ & H & _).
    destruct (H (lit "scgi_run") (lit "/srv/") [] eq_refl) as (H1 & _).
    + vm_compute. reflexivity.
    + apply H1. reflexivity.
  - destruct (C5_path_resolution [lit "scgi_run"; lit "/bin/date"; lit "-u"]
                sample_handler_world) as (_ & H & _).
    destruct (H (lit "scgi_run") (lit "/bin/date") [lit "-u"] eq_refl)
      as (_ & H2 & _).
    + vm_compute. reflexivity.
    + apply H2. discriminate.
  - destruct (C5_path_resolution [lit "scgi_run"; []]
                sample_handler_world) as (_ & H & _).
    destruct (H (lit "scgi_run") [] [] eq_refl) as (_ & H2 & _).
    + vm_compute. reflexivity.
    + apply H2. discriminate.
  - destruct (C5_path_resolution [lit "scgi_run"] sample_handler_world)
      as (H & _).
    apply H. simpl. lia.
Defined.

(** ** The length never wraps around *)

Lemma length_loop_never_wraps (fuel : nat) :
  forall (v : Z) (w : world),
    0 <= v <= MAX_HEADER_LENGTH ->
    length_loop fuel v w = length_loop_unbounded fuel v w.
Proof.
  induction fuel as [|fuel IH]; intros v w Hv; [reflexivity|].
  cbn [length_loop length_loop_unbounded]. unfold bind.
  destruct (read_char w) as [ch w1| | | |]; try reflexivity.
  destruct (isdigit ch) eqn:Hc; [|reflexivity].
  rewrite (isdigit_char_to_int _ Hc).
  pose proof (isdigit_code _ Hc) as Hcode.
  unfold MAX_HEADER_LENGTH in *.
  rewrite wrap32_small by lia.
  destruct (Z.ltb_spec (v * 10 + (code ch - 48)) 0); [reflexivity|].
  destruct (Z.gtb_spec (v * 10 + (code ch - 48)) 262144); [reflexivity|].
  cbn [orb]. apply IH. lia.
Qed.

(** X1.  The 32-bit accumulation of the length never wraps around.  The
    accumulator starts from one digit and is checked against the range
    after every digit, so at each step length * 10 + digit is computed
    from a value of at most [MAX_HEADER_LENGTH] and fits an [int], where
    wrapping leaves it as it is: on every input the digit loop, and
    [read_length], do exactly what they would do on unbounded integers.  A length that is accepted lies
    between 0 and [MAX_HEADER_LENGTH], and the size asked of [malloc]
    and of [read], length + 1, is positive and at most 262145. *)
Theorem X1_length_never_wraps :
  (forall (v : Z) (ch : ascii),
      0 <= v <= MAX_HEADER_LENGTH -> isdigit ch = true ->
      wrap32 (v * 10 + (char_to_int ch - 48))
      = v * 10 + (char_to_int ch - 48) /\
      0 <= v * 10 + (char_to_int ch - 48) < 2 ^ 31) /\
  (forall (fuel : nat) (v : Z) (w : world),
      0 <= v <= MAX_HEADER_LENGTH ->
      length_loop fuel v w = length_loop_unbounded fuel v w) /\
  (forall w : world, read_length w = read_length_unbounded w) /\
  (forall (length : Z) (w w' : world),
      read_length w = Returns length w' ->
      0 <= length <= MAX_HEADER_LENGTH /\
      1 <= Z.of_nat (Z.to_nat (length + 1)) <= 262145).
Proof.
  split; [|split; [|split]].
  - intros v ch Hv Hc. rewrite (isdigit_char_to_int _ Hc).
    pose proof (isdigit_code _ Hc) as Hcode.
    unfold MAX_HEADER_LENGTH in Hv.
    split; [apply wrap32_small|]; lia.
  - intros fuel v w Hv. apply length_loop_never_wraps, Hv.
  - intros w. unfold read_length, read_length_unbounded, bind.
    destruct (read_char w) as [ch w1| | | |]; try reflexivity.
    destruct (isdigit ch) eqn:Hc; [|reflexivity].
    unfold ret. rewrite (isdigit_char_to_int _ Hc).
    pose proof (isdigit_code _ Hc) as Hcode.
    apply length_loop_never_wraps. unfold MAX_HEADER_LENGTH. lia.
  - intros length w w' H.
    destruct (read_length_returns _ _ _ H) as (_ & _ & _ & _ & Hb & _).
    split; [exact Hb|]. unfold MAX_HEADER_LENGTH in Hb. lia.
Qed.

Lemma X1_length_never_wraps_witness :
  length_loop 11 26214 (mkWorld (lit "4:rest") [] [])
  = length_loop_unbounded 11 26214 (mkWorld (lit "4:rest") [] []) /\
  0 <= 262144 <= MAX_HEADER_LENGTH /\
  1 <= Z.of_nat (Z.to_nat (262144 + 1)) <= 262145.
Proof.
  destruct X1_length_never_wraps as (_ & H1 & _ & H3).
  split.
  - apply H1. vm_compute. split; discriminate.
  - apply (H3 262144 (mkWorld (lit "000262144:rest") [] [])
             (mkWorld (lit "rest") [] [])).
    vm_compute. reflexivity.
Defined.
